(** * The photo hat-overlay editor: a shallow embedding of [PhotoEditor]

    The repository holds five copies of one React component, [PhotoEditor],
    that differ in branding, in the overlay assets they offer and in a few
    handlers.  This development embeds the component's state, its event
    handlers and its export routine, once, parameterised by the copy
    ([Variant]), and proves the properties of the specification over it.

    Modelling choices, in one place:
    - a JavaScript [number] is an exact rational ([Q]): the constants
      [0.1], [0.9], [1.1] are the decimals the source writes, and the
      rounding of IEEE doubles is not modelled;
    - React state ([useState]) and refs ([useRef]) are fields of one record,
      [Editor]; a handler is a function [Editor -> Editor] that runs to
      completion, and the component re-renders between two events, so a
      handler reads the values of the render before it (every value a
      handler closes over is listed in its [useCallback] dependencies, apart
      from [currentHatImage] in [handleSave], which is therefore an explicit
      argument of the export routine);
    - the host's timers ([setTimeout], [clearTimeout]) are a queue of pending
      timers with due times on a millisecond clock, part of [Editor];
    - the canvas is the sequence of calls made on it. *)

From Stdlib Require Import QArith Qminmax Lqa ZArith List String Bool Lia.
Import ListNotations.

Local Open Scope Q_scope.

(** ** Data model ([types.ts]) *)

Record Position : Type := mkPosition { x : Q; y : Q }.

Record Transform : Type := mkTransform {
  position : Position;
  rotation : Q;
  scale : Q;
  flipX : bool
}.

Inductive RotateDirection : Type := left | right.
Inductive ScaleDirection : Type := up | down.

(** The overlay assets the copies import; an imported image is the URL of
    its file, so two imports are equal exactly when they name one file. *)
Inductive Asset : Type :=
| rightImage | leftImage | rightTapeImage | leftTapeImage
| orangeRightImage | orangeLeftImage | orangeRightTapeImage | orangeLeftTapeImage
| blueRightImage | blueLeftImage | blueRightTapeImage | blueLeftTapeImage.

Definition Asset_eqb (a b : Asset) : bool :=
  match a, b with
  | rightImage, rightImage | leftImage, leftImage
  | rightTapeImage, rightTapeImage | leftTapeImage, leftTapeImage
  | orangeRightImage, orangeRightImage | orangeLeftImage, orangeLeftImage
  | orangeRightTapeImage, orangeRightTapeImage
  | orangeLeftTapeImage, orangeLeftTapeImage
  | blueRightImage, blueRightImage | blueLeftImage, blueLeftImage
  | blueRightTapeImage, blueRightTapeImage
  | blueLeftTapeImage, blueLeftTapeImage => true
  | _, _ => false
  end.

Inductive Color : Type := orange | blue.

(** The five copies of the component.
    - [Ai16z]: the single-hat editor whose flip swaps the image in place;
    - [ElizaTape]: [src/components/PhotoEditor/PhotoEditor.tsx], with the
      duct-tape toggle;
    - [Sweetychat]: the Sweetychat editor;
    - [SweetychatWindow]: the Sweetychat editor with window chrome and a
      modal;
    - [ElizaColor]: the editor with the orange and blue hats. *)
Inductive Variant : Type :=
| Ai16z | ElizaTape | Sweetychat | SweetychatWindow | ElizaColor.

Inductive StatusType : Type := error | success.

Record Status : Type := mkStatus { message : string; type : StatusType }.

Record Size : Type := mkSize { width : Q; height : Q }.

(** ** Timers of the host *)

Definition TimerId : Type := positive.

Inductive TimerAction : Type :=
| ClearStatus   (* () => setStatus(null) *)
| HideModal.    (* () => setShowModal(false) *)

Record Timer : Type := mkTimer {
  timer_id : TimerId;
  due : Z;
  action : TimerAction
}.

(** ** The component instance: state, refs and the pending timers

    One record serves the five copies: a copy that does not declare a piece
    of state ([hatColor], [hasTape], [isFlipped], [showModal]) never writes
    it, and its field keeps the value of [initial]. *)

Record Editor : Type := mkEditor {
  (* useState *)
  baseImage : string;
  hatColor : Color;
  currentHatImage : Asset;
  hasTape : bool;
  isFlipped : bool;
  transform : Transform;
  originalImageSize : Size;
  status : option Status;
  showModal : bool;
  (* useRef *)
  isDragging : bool;
  dragStart : Position;
  statusTimeoutRef : option TimerId;
  (* host *)
  clock : Z;
  nextTimer : TimerId;
  timers : list Timer
}.

Definition defaultTransform : Transform :=
  {| position := {| x := 0; y := 0 |}; rotation := 0; scale := 1;
     flipX := false |}.

(** The hat a copy shows on mount. *)
Definition defaultHatImage (v : Variant) : Asset :=
  match v with
  | ElizaColor => orangeRightImage
  | _ => rightImage
  end.

Definition initial (v : Variant) : Editor :=
  {| baseImage := EmptyString;
     hatColor := orange;
     currentHatImage := defaultHatImage v;
     hasTape := false;
     isFlipped := false;
     transform := defaultTransform;
     originalImageSize := {| width := 0; height := 0 |};
     status := None;
     showModal := false;
     isDragging := false;
     dragStart := {| x := 0; y := 0 |};
     statusTimeoutRef := None;
     clock := 0%Z;
     nextTimer := 1%positive;
     timers := [] |}.

(** *** State setters ([setX(value)] and [ref.current = value]) *)

Definition setTransform (f : Transform -> Transform) (st : Editor) : Editor :=
  {| baseImage := baseImage st; hatColor := hatColor st;
     currentHatImage := currentHatImage st; hasTape := hasTape st;
     isFlipped := isFlipped st; transform := f (transform st);
     originalImageSize := originalImageSize st; status := status st;
     showModal := showModal st; isDragging := isDragging st;
     dragStart := dragStart st; statusTimeoutRef := statusTimeoutRef st;
     clock := clock st; nextTimer := nextTimer st; timers := timers st |}.

Definition setBaseImage (s : string) (st : Editor) : Editor :=
  {| baseImage := s; hatColor := hatColor st;
     currentHatImage := currentHatImage st; hasTape := hasTape st;
     isFlipped := isFlipped st; transform := transform st;
     originalImageSize := originalImageSize st; status := status st;
     showModal := showModal st; isDragging := isDragging st;
     dragStart := dragStart st; statusTimeoutRef := statusTimeoutRef st;
     clock := clock st; nextTimer := nextTimer st; timers := timers st |}.

Definition setHatColor (c : Color) (st : Editor) : Editor :=
  {| baseImage := baseImage st; hatColor := c;
     currentHatImage := currentHatImage st; hasTape := hasTape st;
     isFlipped := isFlipped st; transform := transform st;
     originalImageSize := originalImageSize st; status := status st;
     showModal := showModal st; isDragging := isDragging st;
     dragStart := dragStart st; statusTimeoutRef := statusTimeoutRef st;
     clock := clock st; nextTimer := nextTimer st; timers := timers st |}.

Definition setCurrentHatImage (a : Asset) (st : Editor) : Editor :=
  {| baseImage := baseImage st; hatColor := hatColor st;
     currentHatImage := a; hasTape := hasTape st;
     isFlipped := isFlipped st; transform := transform st;
     originalImageSize := originalImageSize st; status := status st;
     showModal := showModal st; isDragging := isDragging st;
     dragStart := dragStart st; statusTimeoutRef := statusTimeoutRef st;
     clock := clock st; nextTimer := nextTimer st; timers := timers st |}.

Definition setHasTape (b : bool) (st : Editor) : Editor :=
  {| baseImage := baseImage st; hatColor := hatColor st;
     currentHatImage := currentHatImage st; hasTape := b;
     isFlipped := isFlipped st; transform := transform st;
     originalImageSize := originalImageSize st; status := status st;
     showModal := showModal st; isDragging := isDragging st;
     dragStart := dragStart st; statusTimeoutRef := statusTimeoutRef st;
     clock := clock st; nextTimer := nextTimer st; timers := timers st |}.

Definition setIsFlipped (b : bool) (st : Editor) : Editor :=
  {| baseImage := baseImage st; hatColor := hatColor st;
     currentHatImage := currentHatImage st; hasTape := hasTape st;
     isFlipped := b; transform := transform st;
     originalImageSize := originalImageSize st; status := status st;
     showModal := showModal st; isDragging := isDragging st;
     dragStart := dragStart st; statusTimeoutRef := statusTimeoutRef st;
     clock := clock st; nextTimer := nextTimer st; timers := timers st |}.

Definition setOriginalImageSize (s : Size) (st : Editor) : Editor :=
  {| baseImage := baseImage st; hatColor := hatColor st;
     currentHatImage := currentHatImage st; hasTape := hasTape st;
     isFlipped := isFlipped st; transform := transform st;
     originalImageSize := s; status := status st;
     showModal := showModal st; isDragging := isDragging st;
     dragStart := dragStart st; statusTimeoutRef := statusTimeoutRef st;
     clock := clock st; nextTimer := nextTimer st; timers := timers st |}.

Definition setStatus (s : option Status) (st : Editor) : Editor :=
  {| baseImage := baseImage st; hatColor := hatColor st;
     currentHatImage := currentHatImage st; hasTape := hasTape st;
     isFlipped := isFlipped st; transform := transform st;
     originalImageSize := originalImageSize st; status := s;
     showModal := showModal st; isDragging := isDragging st;
     dragStart := dragStart st; statusTimeoutRef := statusTimeoutRef st;
     clock := clock st; nextTimer := nextTimer st; timers := timers st |}.

Definition setShowModal (b : bool) (st : Editor) : Editor :=
  {| baseImage := baseImage st; hatColor := hatColor st;
     currentHatImage := currentHatImage st; hasTape := hasTape st;
     isFlipped := isFlipped st; transform := transform st;
     originalImageSize := originalImageSize st; status := status st;
     showModal := b; isDragging := isDragging st;
     dragStart := dragStart st; statusTimeoutRef := statusTimeoutRef st;
     clock := clock st; nextTimer := nextTimer st; timers := timers st |}.

Definition set_isDragging (b : bool) (st : Editor) : Editor :=
  {| baseImage := baseImage st; hatColor := hatColor st;
     currentHatImage := currentHatImage st; hasTape := hasTape st;
     isFlipped := isFlipped st; transform := transform st;
     originalImageSize := originalImageSize st; status := status st;
     showModal := showModal st; isDragging := b;
     dragStart := dragStart st; statusTimeoutRef := statusTimeoutRef st;
     clock := clock st; nextTimer := nextTimer st; timers := timers st |}.

Definition set_dragStart (p : Position) (st : Editor) : Editor :=
  {| baseImage := baseImage st; hatColor := hatColor st;
     currentHatImage := currentHatImage st; hasTape := hasTape st;
     isFlipped := isFlipped st; transform := transform st;
     originalImageSize := originalImageSize st; status := status st;
     showModal := showModal st; isDragging := isDragging st;
     dragStart := p; statusTimeoutRef := statusTimeoutRef st;
     clock := clock st; nextTimer := nextTimer st; timers := timers st |}.

Definition set_statusTimeoutRef (r : option TimerId) (st : Editor) : Editor :=
  {| baseImage := baseImage st; hatColor := hatColor st;
     currentHatImage := currentHatImage st; hasTape := hasTape st;
     isFlipped := isFlipped st; transform := transform st;
     originalImageSize := originalImageSize st; status := status st;
     showModal := showModal st; isDragging := isDragging st;
     dragStart := dragStart st; statusTimeoutRef := r;
     clock := clock st; nextTimer := nextTimer st; timers := timers st |}.

Definition set_clock (t : Z) (st : Editor) : Editor :=
  {| baseImage := baseImage st; hatColor := hatColor st;
     currentHatImage := currentHatImage st; hasTape := hasTape st;
     isFlipped := isFlipped st; transform := transform st;
     originalImageSize := originalImageSize st; status := status st;
     showModal := showModal st; isDragging := isDragging st;
     dragStart := dragStart st; statusTimeoutRef := statusTimeoutRef st;
     clock := t; nextTimer := nextTimer st; timers := timers st |}.

Definition set_timers (n : TimerId) (l : list Timer) (st : Editor) : Editor :=
  {| baseImage := baseImage st; hatColor := hatColor st;
     currentHatImage := currentHatImage st; hasTape := hasTape st;
     isFlipped := isFlipped st; transform := transform st;
     originalImageSize := originalImageSize st; status := status st;
     showModal := showModal st; isDragging := isDragging st;
     dragStart := dragStart st; statusTimeoutRef := statusTimeoutRef st;
     clock := clock st; nextTimer := n; timers := l |}.

(** ** Handlers on the transform *)

Definition Math_max : Q -> Q -> Q := Qmax.
Definition Math_min : Q -> Q -> Q := Qmin.

(** [prev => ({...prev, rotation: prev.rotation + (direction === 'left' ? -15 : 15)})] *)
Definition rotate_update (direction : RotateDirection) (prev : Transform)
  : Transform :=
  {| position := position prev;
     rotation := rotation prev
                 + (match direction with left => -15 | right => 15 end);
     scale := scale prev;
     flipX := flipX prev |}.

(** [prev => ({...prev, scale: Math.max(0.1, Math.min(7, prev.scale * (direction === 'up' ? 1.1 : 0.9)))})] *)
Definition scale_update (direction : ScaleDirection) (prev : Transform)
  : Transform :=
  {| position := position prev;
     rotation := rotation prev;
     scale := Math_max 0.1
                (Math_min 7
                   (scale prev * (match direction with up => 1.1 | down => 0.9 end)));
     flipX := flipX prev |}.

(** [prev => ({...prev, position: {x: ..., y: ...}})] *)
Definition position_update (p : Position) (prev : Transform) : Transform :=
  {| position := p;
     rotation := rotation prev;
     scale := scale prev;
     flipX := flipX prev |}.

Definition handleRotate (direction : RotateDirection) (st : Editor) : Editor :=
  setTransform (rotate_update direction) st.

Definition handleScale (direction : ScaleDirection) (st : Editor) : Editor :=
  setTransform (scale_update direction) st.

(** ** Pointer handlers *)

(** What a mouse event and a touch of a touch event carry. *)
Record Pointer : Type := mkPointer { clientX : Q; clientY : Q }.

Definition grabOffset (c : Pointer) (p : Position) : Position :=
  {| x := clientX c - x p; y := clientY c - y p |}.

Definition tracked (c : Pointer) (d : Position) : Position :=
  {| x := clientX c - x d; y := clientY c - y d |}.

Definition handleTouchStart (touches : list Pointer) (st : Editor) : Editor :=
  match touches with
  | [touch] =>
      set_dragStart (grabOffset touch (position (transform st)))
        (set_isDragging true st)
  | _ => st
  end.

Definition handleTouchMove (touches : list Pointer) (st : Editor) : Editor :=
  match isDragging st, touches with
  | true, [touch] =>
      setTransform (position_update (tracked touch (dragStart st))) st
  | _, _ => st
  end.

Definition handleTouchEnd (st : Editor) : Editor := set_isDragging false st.

Definition handleMouseDown (e : Pointer) (st : Editor) : Editor :=
  set_dragStart (grabOffset e (position (transform st)))
    (set_isDragging true st).

Definition handleMouseMove (e : Pointer) (st : Editor) : Editor :=
  if isDragging st
  then setTransform (position_update (tracked e (dragStart st))) st
  else st.

Definition handleMouseUp (st : Editor) : Editor := set_isDragging false st.

(** ** Timers and the status notice *)

Definition setTimeout (a : TimerAction) (delay : Z) (st : Editor)
  : TimerId * Editor :=
  (nextTimer st,
   set_timers (Pos.succ (nextTimer st))
     (timers st ++ [{| timer_id := nextTimer st;
                       due := (clock st + delay)%Z;
                       action := a |}])
     st).

Definition clearTimeout (id : TimerId) (st : Editor) : Editor :=
  set_timers (nextTimer st)
    (filter (fun t => negb (Pos.eqb (timer_id t) id)) (timers st))
    st.

Definition showStatus (msg : string) (ty : StatusType) (st : Editor) : Editor :=
  let st1 := match statusTimeoutRef st with
             | Some id => clearTimeout id st
             | None => st
             end in
  let st2 := setStatus (Some {| message := msg; type := ty |}) st1 in
  let '(id, st3) := setTimeout ClearStatus 1000 st2 in
  set_statusTimeoutRef (Some id) st3.

(** The callback of a timer, when the host runs it. *)
Definition runAction (a : TimerAction) (st : Editor) : Editor :=
  match a with
  | ClearStatus => setStatus None st
  | HideModal => setShowModal false st
  end.

(** ** Overlay variant selection *)

(** [getHatImage] of the two-colour copy. *)
Definition getHatImage (color : Color) (flipped tape : bool) : Asset :=
  match color with
  | orange =>
      if flipped
      then (if tape then orangeLeftTapeImage else orangeLeftImage)
      else (if tape then orangeRightTapeImage else orangeRightImage)
  | blue =>
      if flipped
      then (if tape then blueLeftTapeImage else blueLeftImage)
      else (if tape then blueRightTapeImage else blueRightImage)
  end.

Definition handleFlip (v : Variant) (st : Editor) : Editor :=
  match v with
  | Ai16z =>
      setCurrentHatImage
        (if Asset_eqb (currentHatImage st) rightImage
         then leftImage else rightImage) st
  | ElizaTape =>
      let st1 := setIsFlipped (negb (isFlipped st)) st in
      if negb (isFlipped st)
      then setCurrentHatImage
             (if hasTape st then leftTapeImage else leftImage) st1
      else setCurrentHatImage
             (if hasTape st then rightTapeImage else rightImage) st1
  | Sweetychat | SweetychatWindow =>
      let newFlipped := negb (isFlipped st) in
      setIsFlipped newFlipped
        (setCurrentHatImage (if newFlipped then leftImage else rightImage) st)
  | ElizaColor =>
      let newFlipped := negb (isFlipped st) in
      setIsFlipped newFlipped
        (setCurrentHatImage (getHatImage (hatColor st) newFlipped (hasTape st))
           st)
  end.

(** The duct-tape toggle exists in two copies only. *)
Definition handleTape (v : Variant) (st : Editor) : option Editor :=
  match v with
  | ElizaTape =>
      let st1 := setHasTape (negb (hasTape st)) st in
      Some (if isFlipped st
            then setCurrentHatImage
                   (if negb (hasTape st) then leftTapeImage else leftImage) st1
            else setCurrentHatImage
                   (if negb (hasTape st) then rightTapeImage else rightImage)
                   st1)
  | ElizaColor =>
      let newTape := negb (hasTape st) in
      Some (setHasTape newTape
              (setCurrentHatImage
                 (getHatImage (hatColor st) (isFlipped st) newTape) st))
  | _ => None
  end.

(** The colour buttons exist in one copy only. *)
Definition handleColorChange (v : Variant) (newColor : Color) (st : Editor)
  : option Editor :=
  match v with
  | ElizaColor =>
      Some (setCurrentHatImage
              (getHatImage newColor (isFlipped st) (hasTape st))
              (setHatColor newColor st))
  | _ => None
  end.

Definition handleReset (v : Variant) (st : Editor) : Editor :=
  let st1 := setTransform (fun _ => defaultTransform) st in
  match v with
  | Ai16z => st1
  | ElizaTape =>
      setCurrentHatImage rightImage (setIsFlipped false (setHasTape false st1))
  | Sweetychat | SweetychatWindow =>
      setCurrentHatImage rightImage (setIsFlipped false st1)
  | ElizaColor =>
      setCurrentHatImage (getHatImage (hatColor st) false false)
        (setIsFlipped false (setHasTape false st1))
  end.

(** The window-chrome buttons of [SweetychatWindow]; the timer's id is
    dropped, so nothing ever cancels it. *)
Definition handleWindowControl (v : Variant) (st : Editor) : option Editor :=
  match v with
  | SweetychatWindow =>
      Some (snd (setTimeout HideModal 2000 (setShowModal true st)))
  | _ => None
  end.

(** ** Upload *)

(** [handleBaseImageUpload]: the synchronous part, on the chosen file's
    media type ([None]: no file chosen). *)
Definition handleBaseImageUpload (fileType : option string) (st : Editor)
  : Editor :=
  match fileType with
  | Some ty =>
      if negb (String.prefix "image/" ty)
      then showStatus "Please select an image file" error st
      else st
  | None => st
  end.

(** [reader.onload]: the data URL arrives. *)
Definition reader_onload (dataUrl : string) (st : Editor) : Editor :=
  setBaseImage dataUrl st.

(** [img.onload]: the uploaded image is decoded. *)
Definition img_onload (w h : Q) (st : Editor) : Editor :=
  showStatus "Image loaded successfully" success
    (setOriginalImageSize {| width := w; height := h |} st).

(** ** The export routine ([handleSave]) *)

(** What [handleSave] reads from the page when it runs. *)
Record Rect : Type := mkRect { rect_width : Q; rect_height : Q }.

Record Dom : Type := mkDom {
  (* overlayRef.current; inside, what querySelector('img') finds, with the
     rectangle getBoundingClientRect gives for it *)
  overlayRef_current : option (option Rect);
  (* containerRef.current, with its getBoundingClientRect *)
  containerRef_current : option Rect;
  (* canvas.getContext('2d') is not null *)
  getContext_2d : bool;
  (* the load event of the base image fires *)
  baseImg_onload : bool;
  (* the load event of the hat image fires; its natural size *)
  hatImg_onload : option Size
}.

Inductive ImageSource : Type :=
| baseImg (src : string)
| hatImg (src : Asset).

(** Calls on the 2D context. *)
Inductive CanvasCall : Type :=
| ctx_drawImage (img : ImageSource) (dx dy dw dh : Q)
| ctx_save
| ctx_translate (tx ty : Q)
| ctx_rotate (angle : Q)
| ctx_scale (sx sy : Q)
| ctx_restore.

(** What the routine does to the world outside the component, in order. *)
Inductive Effect : Type :=
| createCanvas
| getContext
| loadImage (img : ImageSource)
| setCanvasSize (w h : Q)
| ctx (c : CanvasCall)
| download (filename : string)      (* toDataURL and link.click() *)
| console_error.

(** The body of the [try] block threads the effects made so far and ends
    in one of three ways: it returns, it throws, or it waits for a promise
    that never settles (the routine listens to [onload] only). *)
Inductive Outcome (A : Type) : Type :=
| Returned (a : A)
| Threw
| Suspended.

Arguments Returned {A} a.
Arguments Threw {A}.
Arguments Suspended {A}.

Definition Async (A : Type) : Type := list Effect -> Outcome A * list Effect.

Definition ret {A : Type} (a : A) : Async A := fun log => (Returned a, log).

Definition bind {A B : Type} (m : Async A) (k : A -> Async B) : Async B :=
  fun log =>
    match m log with
    | (Returned a, log') => k a log'
    | (Threw, log') => (Threw, log')
    | (Suspended, log') => (Suspended, log')
    end.

Definition emit (e : Effect) : Async unit :=
  fun log => (Returned tt, log ++ [e]).

Definition throw {A : Type} : Async A := fun log => (Threw, log).

(** [await new Promise(resolve => img.onload = resolve)] *)
Definition await_onload (fires : bool) : Async unit :=
  fun log => if fires then (Returned tt, log) else (Suspended, log).

Definition when (b : bool) (m : Async unit) : Async unit :=
  if b then m else ret tt.

Declare Scope async_scope.
Delimit Scope async_scope with async.
Notation "m1 ;; m2" := (bind m1 (fun _ => m2))
  (at level 61, right associativity) : async_scope.

Definition Q_gtb (a b : Q) : bool := negb (Qle_bool a b).

(** The on-screen width of the overlay image each copy assumes. *)
Definition overlayFootprint (v : Variant) (overlayRect : Rect) : Q :=
  match v with
  | Ai16z | ElizaTape => 100
  | Sweetychat | ElizaColor => 400
  | SweetychatWindow => rect_width overlayRect
  end.

Definition exportFilename (v : Variant) : string :=
  match v with
  | Ai16z | ElizaTape => "you-are-a-partner-now.png"
  | Sweetychat | SweetychatWindow => "sweetychat-hat.png"
  | ElizaColor => "eliza-hat.png"
  end.

(** [Math.PI] is the double nearest to pi, the rational
    [884279719003555 / 2^48]. *)
Definition Math_PI : Q := 884279719003555 # 281474976710656.

(** The overlay part of the [try] block: from [ctx.save()] to
    [ctx.restore()]. *)
Definition drawOverlay (v : Variant) (t : Transform) (hat : Asset)
    (canvas : Size) (scaleX scaleY : Q) (overlayRect : Rect) (natural : Size)
  : Async unit :=
  (let centerX := width canvas / 2 in
   let centerY := height canvas / 2 in
   emit (ctx ctx_save) ;;
   emit (ctx (ctx_translate (centerX + x (position t) * scaleX)
                            (centerY + y (position t) * scaleY))) ;;
   emit (ctx (ctx_rotate (rotation t * Math_PI / 180))) ;;
   when (flipX t) (emit (ctx (ctx_scale (-1) 1))) ;;
   emit (ctx (ctx_scale (scale t) (scale t))) ;;
   let overlayWidth := overlayFootprint v overlayRect * scaleX in
   let overlayHeight := overlayWidth * height natural / width natural in
   emit (ctx (ctx_drawImage (hatImg hat) (- overlayWidth / 2)
                (- overlayHeight / 2) overlayWidth overlayHeight)) ;;
   emit (ctx ctx_restore))%async.

(** The [try] block of [handleSave], after the guard let it through. *)
Definition exportBody (v : Variant) (base : string) (t : Transform)
    (size : Size) (hat : Asset) (overlayImg : option Rect)
    (containerRect : Rect) (dom : Dom) : Async unit :=
  (emit createCanvas ;;
   emit getContext ;;
   when (negb (getContext_2d dom)) throw ;;
   emit (loadImage (baseImg base)) ;;
   await_onload (baseImg_onload dom) ;;
   let canvas := {| width := width size; height := height size |} in
   emit (setCanvasSize (width canvas) (height canvas)) ;;
   emit (ctx (ctx_drawImage (baseImg base) 0 0 (width canvas) (height canvas))) ;;
   let containerAspect := rect_width containerRect / rect_height containerRect in
   let imageAspect := width canvas / height canvas in
   let displayedWidth :=
     if Q_gtb containerAspect imageAspect
     then rect_height containerRect * imageAspect
     else rect_width containerRect in
   let displayedHeight :=
     if Q_gtb containerAspect imageAspect
     then rect_height containerRect
     else rect_width containerRect / imageAspect in
   let scaleX := width canvas / displayedWidth in
   let scaleY := height canvas / displayedHeight in
   match overlayImg with
   | Some overlayRect =>
       emit (loadImage (hatImg hat)) ;;
       match hatImg_onload dom with
       | Some natural =>
           drawOverlay v t hat canvas scaleX scaleY overlayRect natural
       | None => await_onload false
       end
   | None => ret tt
   end ;;
   emit (download (exportFilename v)))%async.

(** [handleSave] is memoised on [baseImage], [transform] and
    [originalImageSize]; [SweetychatWindow] adds [currentHatImage].  In the
    other copies the hat it draws is the one of the render that last changed
    a dependency, given here as [captured]. *)
Definition closedOverHat (v : Variant) (captured : Asset) (st : Editor)
  : Asset :=
  match v with
  | SweetychatWindow => currentHatImage st
  | _ => captured
  end.

(** [handleSave]: the new state and what was done outside the component.
    The awaits are taken to settle, or not, within the call. *)
Definition handleSave (v : Variant) (dom : Dom) (captured : Asset)
    (st : Editor) : Editor * list Effect :=
  match baseImage st, overlayRef_current dom, containerRef_current dom with
  | String _ _ as base, Some overlayImg, Some containerRect =>
      match exportBody v base (transform st) (originalImageSize st)
              (closedOverHat v captured st) overlayImg containerRect dom []
      with
      | (Returned _, log) =>
          (showStatus "Image saved successfully" success st, log)
      | (Threw, log) =>
          (showStatus "Error saving image" error st, log ++ [console_error])
      | (Suspended, log) => (st, log)
      end
  | _, _, _ => (showStatus "Please upload an image first" error st, [])
  end.

(** ** The live preview ([getOverlayStyle]) *)

(** The functions of the CSS [transform] property, in the order written. *)
Inductive CssTransform : Type :=
| css_translate_percent (tx ty : Q)
| css_translate_px (tx ty : Q)
| css_rotate_deg (angle : Q)
| css_scale (sx sy : Q).

Definition getOverlayStyle (t : Transform) : list CssTransform :=
  [ css_translate_percent (-50) (-50);
    css_translate_px (x (position t)) (y (position t));
    css_rotate_deg (rotation t);
    css_scale (scale t * (if flipX t then -1 else 1)) (scale t) ].

(** ** Events and the component as a state machine *)

Inductive Event : Type :=
| onTouchStart (touches : list Pointer)
| onTouchMove (touches : list Pointer)
| onTouchEnd                              (* and onTouchCancel *)
| onMouseDown (e : Pointer)
| onMouseMove (e : Pointer)
| onMouseUp                               (* and onMouseLeave *)
| clickRotate (direction : RotateDirection)
| clickScale (direction : ScaleDirection)
| clickFlip
| clickTape
| clickColor (newColor : Color)
| clickReset
| clickSave (dom : Dom) (captured : Asset)
| clickWindowControl
| clickModal
| changeFile (fileType : option string)
| fileRead (dataUrl : string)
| imageDecoded (w h : Q)
| elapse (ms : N)                         (* time passes *)
| timeout (id : TimerId).                 (* the host runs a due timer *)

Definition findTimer (id : TimerId) (l : list Timer) : option Timer :=
  find (fun t => Pos.eqb (timer_id t) id) l.

(** The host runs the callback of timer [id]: it must be pending and due. *)
Definition fireTimer (id : TimerId) (st : Editor) : option Editor :=
  match findTimer id (timers st) with
  | Some t =>
      if (due t <=? clock st)%Z
      then Some (runAction (action t) (clearTimeout id st))
      else None
  | None => None
  end.

(** One event; [None] when the copy has no such control or the timer cannot
    fire.  The Save button is disabled while [baseImage] is empty; the
    handler is let run all the same, which only adds reachable states. *)
Definition step (v : Variant) (ev : Event) (st : Editor) : option Editor :=
  match ev with
  | onTouchStart touches => Some (handleTouchStart touches st)
  | onTouchMove touches => Some (handleTouchMove touches st)
  | onTouchEnd => Some (handleTouchEnd st)
  | onMouseDown e => Some (handleMouseDown e st)
  | onMouseMove e => Some (handleMouseMove e st)
  | onMouseUp => Some (handleMouseUp st)
  | clickRotate direction => Some (handleRotate direction st)
  | clickScale direction => Some (handleScale direction st)
  | clickFlip => Some (handleFlip v st)
  | clickTape => handleTape v st
  | clickColor newColor => handleColorChange v newColor st
  | clickReset => Some (handleReset v st)
  | clickSave dom captured => Some (fst (handleSave v dom captured st))
  | clickWindowControl => handleWindowControl v st
  | clickModal =>
      match v with
      | SweetychatWindow =>
          if showModal st then Some (setShowModal false st) else None
      | _ => None
      end
  | changeFile fileType => Some (handleBaseImageUpload fileType st)
  | fileRead dataUrl => Some (reader_onload dataUrl st)
  | imageDecoded w h => Some (img_onload w h st)
  | elapse ms => Some (set_clock (clock st + Z.of_N ms)%Z st)
  | timeout id => fireTimer id st
  end.

Fixpoint run (v : Variant) (evs : list Event) (st : Editor) : option Editor :=
  match evs with
  | [] => Some st
  | ev :: evs' =>
      match step v ev st with
      | Some st' => run v evs' st'
      | None => None
      end
  end.

Inductive reachable (v : Variant) : Editor -> Prop :=
| reachable_initial : reachable v (initial v)
| reachable_step : forall st ev st',
    reachable v st -> step v ev st = Some st' -> reachable v st'.

(** ** Vocabulary of the properties *)

(** *** Drag sequences *)

Inductive DragStart : Type :=
| mouseDown (e : Pointer)
| touchStart (touch : Pointer).        (* a touch start with one contact *)

Inductive DragMove : Type :=
| mouseMove (e : Pointer)
| touchMove (touches : list Pointer).

Inductive DragEnd : Type := mouseUp | touchEnd.

Definition startEvent (s : DragStart) : Event :=
  match s with
  | mouseDown e => onMouseDown e
  | touchStart touch => onTouchStart [touch]
  end.

Definition moveEvent (m : DragMove) : Event :=
  match m with
  | mouseMove e => onMouseMove e
  | touchMove touches => onTouchMove touches
  end.

Definition endEvent (e : DragEnd) : Event :=
  match e with
  | mouseUp => onMouseUp
  | touchEnd => onTouchEnd
  end.

Definition startContact (s : DragStart) : Pointer :=
  match s with
  | mouseDown e => e
  | touchStart touch => touch
  end.

(** The contact point of a move, when it has exactly one. *)
Definition moveContact (m : DragMove) : option Pointer :=
  match m with
  | mouseMove e => Some e
  | touchMove [touch] => Some touch
  | touchMove _ => None
  end.

(** The last contact point of a list of moves, from [c] when there is
    none. *)
Definition lastContact (c : option Pointer) (moves : list DragMove)
  : option Pointer :=
  fold_left (fun acc m => match moveContact m with
                          | Some p => Some p
                          | None => acc
                          end) moves c.

Definition dragEvents (s : DragStart) (moves : list DragMove) (e : DragEnd)
  : list Event :=
  startEvent s :: map moveEvent moves ++ [endEvent e].

(** Where a drag leaves the overlay: at the last contact point minus the
    grab offset, or where it was when no move had a contact point. *)
Definition dragPosition (offset before : Position) (last : option Pointer)
  : Position :=
  match last with
  | Some c => tracked c offset
  | None => before
  end.

(** Events that neither start a drag nor are the reset button. *)
Definition startsDrag (ev : Event) : bool :=
  match ev with
  | onMouseDown _ => true
  | onTouchStart [_] => true
  | _ => false
  end.

Definition isReset (ev : Event) : bool :=
  match ev with
  | clickReset => true
  | _ => false
  end.

Definition quiet (ev : Event) : bool :=
  negb (startsDrag ev) && negb (isReset ev).

(** *** Scaling and rotating, repeated *)

(** The words of the specification: the product, clamped into [lo, hi]. *)
Definition clamp (lo hi v : Q) : Q :=
  if Qlt_le_dec v lo then lo else if Qlt_le_dec hi v then hi else v.

Definition scaleActions (ds : list ScaleDirection) (st : Editor) : Editor :=
  fold_left (fun s d => handleScale d s) ds st.

Definition rotateTimes (n : nat) (direction : RotateDirection) (st : Editor)
  : Editor :=
  Nat.iter n (handleRotate direction) st.

(** *** The overlay variant *)

Record OverlayVariant : Type := mkOverlayVariant {
  asset : Asset;
  flipped : bool;
  tape : bool;
  color : Color
}.

Definition overlayVariant (st : Editor) : OverlayVariant :=
  {| asset := currentHatImage st; flipped := isFlipped st;
     tape := hasTape st; color := hatColor st |}.

(** The asset the toggles of a state select, copy by copy.  [Ai16z] keeps no
    toggle: its image is the toggle. *)
Definition selectedHat (v : Variant) (st : Editor) : Asset :=
  match v with
  | Ai16z =>
      if Asset_eqb (currentHatImage st) rightImage then rightImage
      else leftImage
  | ElizaTape =>
      if isFlipped st
      then (if hasTape st then leftTapeImage else leftImage)
      else (if hasTape st then rightTapeImage else rightImage)
  | Sweetychat | SweetychatWindow =>
      if isFlipped st then leftImage else rightImage
  | ElizaColor => getHatImage (hatColor st) (isFlipped st) (hasTape st)
  end.

(** *** What an aborted export leaves alone: all but the notice and its
    timer *)

Definition sameEditorState (st st' : Editor) : Prop :=
  baseImage st' = baseImage st /\
  hatColor st' = hatColor st /\
  currentHatImage st' = currentHatImage st /\
  hasTape st' = hasTape st /\
  isFlipped st' = isFlipped st /\
  transform st' = transform st /\
  originalImageSize st' = originalImageSize st /\
  showModal st' = showModal st /\
  isDragging st' = isDragging st /\
  dragStart st' = dragStart st /\
  clock st' = clock st.

Definition isDownload (e : Effect) : bool :=
  match e with
  | download _ => true
  | _ => false
  end.

(** *** Timers *)

Definition pending (id : TimerId) (st : Editor) : Prop :=
  exists t, findTimer id (timers st) = Some t.

(** Time passing and timers firing: the events that involve no handler of
    the component. *)
Definition passive (ev : Event) : bool :=
  match ev with
  | elapse _ | timeout _ => true
  | _ => false
  end.

(** The timers [showStatus] keeps: all but the one the ref names. *)
Definition uncancelled (st : Editor) : list Timer :=
  match statusTimeoutRef st with
  | Some id => filter (fun t => negb (Pos.eqb (timer_id t) id)) (timers st)
  | None => timers st
  end.

(** What holds of the timers in every reachable state. *)
Record timers_ok (st : Editor) : Prop := mk_timers_ok {
  ids_fresh : Forall (fun t => (timer_id t < nextTimer st)%positive) (timers st);
  ref_fresh : forall id, statusTimeoutRef st = Some id ->
                         (id < nextTimer st)%positive;
  one_dismissal : forall t, In t (timers st) -> action t = ClearStatus ->
                            statusTimeoutRef st = Some (timer_id t)
}.

(** *** The canvas as a transformation *)

(** An affine map [[a c e] [b d f] [0 0 1]], as the canvas keeps it. *)
Record Affine : Type := mkAffine { ma : Q; mb : Q; mc : Q; md : Q; me : Q; mf : Q }.

Definition affine_id : Affine :=
  {| ma := 1; mb := 0; mc := 0; md := 1; me := 0; mf := 0 |}.

Definition affine_mul (m n : Affine) : Affine :=
  {| ma := ma m * ma n + mc m * mb n;
     mb := mb m * ma n + md m * mb n;
     mc := ma m * mc n + mc m * md n;
     md := mb m * mc n + md m * md n;
     me := ma m * me n + mc m * mf n + me m;
     mf := mb m * me n + md m * mf n + mf m |}.

(** Equality of the linear parts, and of the whole maps, as numbers. *)
Definition linear_eq (m n : Affine) : Prop :=
  ma m == ma n /\ mb m == mb n /\ mc m == mc n /\ md m == md n.

Definition affine_eq (m n : Affine) : Prop :=
  linear_eq m n /\ me m == me n /\ mf m == mf n.

Section Trigonometry.

(** Cosine and sine, of an angle in radians. *)
Variables cos sin : Q -> Q.

Definition rotation_matrix (angle : Q) : Affine :=
  {| ma := cos angle; mb := sin angle; mc := - sin angle; md := cos angle;
     me := 0; mf := 0 |}.

Definition translation_matrix (tx ty : Q) : Affine :=
  {| ma := 1; mb := 0; mc := 0; md := 1; me := tx; mf := ty |}.

Definition scaling_matrix (sx sy : Q) : Affine :=
  {| ma := sx; mb := 0; mc := 0; md := sy; me := 0; mf := 0 |}.

(** The 2D context: the current transformation, the stack of [save], and
    the images drawn with the transformation in force at each. *)
Record Canvas : Type := mkCanvas {
  ctm : Affine;
  saved : list Affine;
  drawn : list (ImageSource * Affine)
}.

Definition canvas_blank : Canvas :=
  {| ctm := affine_id; saved := []; drawn := [] |}.

Definition canvasCall (cv : Canvas) (c : CanvasCall) : Canvas :=
  let apply m := {| ctm := affine_mul (ctm cv) m; saved := saved cv;
                    drawn := drawn cv |} in
  match c with
  | ctx_drawImage img _ _ _ _ =>
      {| ctm := ctm cv; saved := saved cv;
         drawn := drawn cv ++ [(img, ctm cv)] |}
  | ctx_save =>
      {| ctm := ctm cv; saved := ctm cv :: saved cv; drawn := drawn cv |}
  | ctx_restore =>
      match saved cv with
      | m :: rest => {| ctm := m; saved := rest; drawn := drawn cv |}
      | [] => cv
      end
  | ctx_translate tx ty => apply (translation_matrix tx ty)
  | ctx_rotate angle => apply (rotation_matrix angle)
  | ctx_scale sx sy => apply (scaling_matrix sx sy)
  end.

Definition canvasCalls (es : list Effect) : list CanvasCall :=
  flat_map (fun e => match e with ctx c => [c] | _ => [] end) es.

Definition paint (calls : list CanvasCall) : Canvas :=
  fold_left canvasCall calls canvas_blank.

(** The transformation in force when the hat was drawn. *)
Definition hatPlacement (cv : Canvas) : option Affine :=
  match filter (fun d => match fst d with hatImg _ => true | _ => false end)
               (drawn cv) with
  | [(_, m)] => Some m
  | _ => None
  end.

(** The linear part of a CSS transform list: the functions multiply in the
    order written; translations have none.  Degrees become radians as in
    the export. *)
Definition cssMatrix (f : CssTransform) : Affine :=
  match f with
  | css_translate_percent _ _ | css_translate_px _ _ => affine_id
  | css_rotate_deg angle => rotation_matrix (angle * Math_PI / 180)
  | css_scale sx sy => scaling_matrix sx sy
  end.

Definition styleMatrix (fs : list CssTransform) : Affine :=
  fold_left (fun m f => affine_mul m (cssMatrix f)) fs affine_id.

End Trigonometry.

(** The display-to-native scale factors [(scaleX, scaleY)]: the base image
    is fitted into the container, keeping its aspect. *)
Definition displayToNative (canvas : Size) (containerRect : Rect) : Q * Q :=
  let containerAspect := rect_width containerRect / rect_height containerRect in
  let imageAspect := width canvas / height canvas in
  let displayedWidth :=
    if Q_gtb containerAspect imageAspect
    then rect_height containerRect * imageAspect
    else rect_width containerRect in
  let displayedHeight :=
    if Q_gtb containerAspect imageAspect
    then rect_height containerRect
    else rect_width containerRect / imageAspect in
  (width canvas / displayedWidth, height canvas / displayedHeight).

(** The calls between [ctx.save()] and [ctx.restore()], as the
    specification orders them. *)
Definition placementCalls (t : Transform) (tx ty : Q) : list CanvasCall :=
  [ctx_translate tx ty; ctx_rotate (rotation t * Math_PI / 180)]
  ++ (if flipX t then [ctx_scale (-1) 1] else [])
  ++ [ctx_scale (scale t) (scale t)].

(** *** The invariant of the reachable states *)

Record invariant (v : Variant) (st : Editor) : Prop := mk_invariant {
  inv_flipX : flipX (transform st) = false;
  inv_scale : 0.1 <= scale (transform st) <= 7;
  inv_rotation : exists k : Z, rotation (transform st) = inject_Z (15 * k);
  inv_hat : currentHatImage st = selectedHat v st;
  inv_timers : timers_ok st
}.

(** ** Vocabulary of the further properties *)

(** Two option-valued handlers, one after the other. *)
Definition andThen (o : option Editor) (f : Editor -> option Editor)
  : option Editor :=
  match o with
  | Some st => f st
  | None => None
  end.

(** The hats an export drew, and how often it saved and restored the
    context. *)
Definition hatsDrawn (es : list Effect) : list Asset :=
  flat_map (fun e => match e with
                     | ctx (ctx_drawImage (hatImg h) _ _ _ _) => [h]
                     | _ => []
                     end) es.

Definition isCall (c : CanvasCall) (e : Effect) : bool :=
  match c, e with
  | ctx_save, ctx ctx_save => true
  | ctx_restore, ctx ctx_restore => true
  | _, _ => false
  end.

Definition countCalls (c : CanvasCall) (es : list Effect) : nat :=
  List.length (filter (isCall c) es).

(** While a notice is shown its dismissal is armed: the ref names a pending
    timer that clears the status and is due within a second; and no other
    dismissal is pending. *)
Definition notice_armed (st : Editor) : Prop :=
  (forall s, status st = Some s ->
     exists id t,
       statusTimeoutRef st = Some id /\
       findTimer id (timers st) = Some t /\
       action t = ClearStatus /\
       (due t <= clock st + 1000)%Z) /\
  (forall t, In t (timers st) -> action t = ClearStatus ->
             statusTimeoutRef st = Some (timer_id t)).

(** *** The memoised [handleSave]

    [handleSave] is [useCallback(..., [baseImage, transform,
    originalImageSize])], and in [SweetychatWindow] the list has
    [currentHatImage] too.  React hands out the function of an earlier
    render until a dependency changes: strings compare by value, objects by
    identity, and every [setTransform] and [setOriginalImageSize] of the
    component passes a new object.  [handleSave_hat] is the
    [currentHatImage] the function in use closes over. *)
Record Rendered : Type := mkRendered {
  current : Editor;
  handleSave_hat : Asset
}.

(** The handler of the event calls [setTransform]. *)
Definition callsSetTransform (ev : Event) (st : Editor) : bool :=
  match ev with
  | onTouchMove [_] | onMouseMove _ => isDragging st
  | clickRotate _ | clickScale _ | clickReset => true
  | _ => false
  end.

(** The handler of the event calls [setOriginalImageSize]. *)
Definition callsSetOriginalImageSize (ev : Event) : bool :=
  match ev with
  | imageDecoded _ _ => true
  | _ => false
  end.

Definition handleSave_depsChanged (v : Variant) (ev : Event)
    (st st' : Editor) : bool :=
  negb (String.eqb (baseImage st') (baseImage st))
  || callsSetTransform ev st
  || callsSetOriginalImageSize ev
  || match v with
     | SweetychatWindow =>
         negb (Asset_eqb (currentHatImage st') (currentHatImage st))
     | _ => false
     end.

Definition mount (v : Variant) : Rendered :=
  {| current := initial v; handleSave_hat := currentHatImage (initial v) |}.

(** One event and the render after it: a click on Save runs the function in
    use, with the hat it closes over. *)
Definition render (v : Variant) (ev : Event) (r : Rendered) : option Rendered :=
  let ev' := match ev with
             | clickSave dom _ => clickSave dom (handleSave_hat r)
             | _ => ev
             end in
  match step v ev' (current r) with
  | Some st' =>
      Some {| current := st';
              handleSave_hat :=
                if handleSave_depsChanged v ev (current r) st'
                then currentHatImage st'
                else handleSave_hat r |}
  | None => None
  end.

Fixpoint renders (v : Variant) (evs : list Event) (r : Rendered)
  : option Rendered :=
  match evs with
  | [] => Some r
  | ev :: evs' =>
      match render v ev r with
      | Some r' => renders v evs' r'
      | None => None
      end
  end.

Inductive rendered (v : Variant) : Rendered -> Prop :=
| rendered_mount : rendered v (mount v)
| rendered_render : forall r ev r',
    rendered v r -> render v ev r = Some r' -> rendered v r'.

(** What a click on Save does outside the component, in a rendered
    component. *)
Definition exportOf (v : Variant) (dom : Dom) (r : Rendered) : list Effect :=
  snd (handleSave v dom (handleSave_hat r) (current r)).

(** * Properties *)

(** ** Reachability *)

Lemma reachable_run (v : Variant) (evs : list Event) :
  forall st st', reachable v st -> run v evs st = Some st' -> reachable v st'.
Proof.
  induction evs as [|ev evs IH]; simpl; intros st st' Hr Hrun.
  - injection Hrun as <-. exact Hr.
  - destruct (step v ev st) as [st1|] eqn:Hs; [|discriminate].
    eapply IH; [|exact Hrun]. eapply reachable_step; eauto.
Qed.

Lemma run_app (v : Variant) (evs1 evs2 : list Event) (st : Editor) :
  run v (evs1 ++ evs2) st =
  match run v evs1 st with
  | Some st1 => run v evs2 st1
  | None => None
  end.
Proof.
  revert st. induction evs1 as [|ev evs1 IH]; simpl; intros st; [reflexivity|].
  destruct (step v ev st); [apply IH | reflexivity].
Qed.

(** ** The status notice leaves the editing state alone *)

Lemma showStatus_sameEditorState (msg : string) (ty : StatusType) (st : Editor) :
  sameEditorState st (showStatus msg ty st).
Proof.
  unfold showStatus, sameEditorState.
  destruct (statusTimeoutRef st); simpl; repeat split; reflexivity.
Qed.

Lemma showStatus_status (msg : string) (ty : StatusType) (st : Editor) :
  status (showStatus msg ty st) = Some {| message := msg; type := ty |}.
Proof. unfold showStatus. destruct (statusTimeoutRef st); reflexivity. Qed.

(** [handleSave] ends in one of two ways for the component: a notice, or
    nothing at all (the routine is still waiting). *)
Lemma handleSave_state (v : Variant) (dom : Dom) (captured : Asset)
    (st : Editor) :
  fst (handleSave v dom captured st) = st \/
  exists msg ty, fst (handleSave v dom captured st) = showStatus msg ty st.
Proof.
  unfold handleSave.
  destruct (baseImage st), (overlayRef_current dom), (containerRef_current dom);
    try (right; eexists _, _; reflexivity).
  match goal with |- context [exportBody ?a ?b ?c ?d ?e ?f ?g ?h ?i] =>
    destruct (exportBody a b c d e f g h i) as [[u| |] log] end; simpl;
    solve [left; reflexivity | right; eexists _, _; reflexivity].
Qed.

(** ** Timers *)

Lemma findTimer_In (id : TimerId) (l : list Timer) (t : Timer) :
  findTimer id l = Some t -> In t l /\ timer_id t = id.
Proof.
  unfold findTimer. intros H. apply find_some in H.
  destruct H as [Hin Heq]. split; [exact Hin|]. now apply Pos.eqb_eq.
Qed.

Lemma findTimer_cleared (id : TimerId) (l : list Timer) :
  findTimer id (filter (fun t => negb (Pos.eqb (timer_id t) id)) l) = None.
Proof.
  induction l as [|t l IH]; simpl; [reflexivity|].
  destruct (Pos.eqb (timer_id t) id) eqn:E; simpl; [exact IH|].
  rewrite E. exact IH.
Qed.

Lemma findTimer_other (id id' : TimerId) (l : list Timer) :
  id <> id' ->
  findTimer id' (filter (fun t => negb (Pos.eqb (timer_id t) id)) l)
  = findTimer id' l.
Proof.
  intros Hne. induction l as [|t l IH]; simpl; [reflexivity|].
  destruct (Pos.eqb (timer_id t) id) eqn:E; simpl.
  - apply Pos.eqb_eq in E.
    destruct (Pos.eqb (timer_id t) id') eqn:E'; [|exact IH].
    apply Pos.eqb_eq in E'. congruence.
  - destruct (Pos.eqb (timer_id t) id'); [reflexivity | exact IH].
Qed.

Lemma findTimer_app (id : TimerId) (l1 l2 : list Timer) :
  findTimer id (l1 ++ l2) =
  match findTimer id l1 with
  | Some t => Some t
  | None => findTimer id l2
  end.
Proof.
  induction l1 as [|t l1 IH]; simpl; [reflexivity|].
  destruct (Pos.eqb (timer_id t) id); [reflexivity | exact IH].
Qed.

Lemma findTimer_fresh (n : TimerId) (l : list Timer) :
  Forall (fun t => (timer_id t < n)%positive) l -> findTimer n l = None.
Proof.
  induction 1 as [|t l Ht _ IH]; simpl; [reflexivity|].
  destruct (Pos.eqb (timer_id t) n) eqn:E; [|exact IH].
  apply Pos.eqb_eq in E. lia.
Qed.

Lemma timers_ok_same (st st' : Editor) :
  timers st' = timers st -> nextTimer st' = nextTimer st ->
  statusTimeoutRef st' = statusTimeoutRef st ->
  timers_ok st -> timers_ok st'.
Proof.
  intros Ht Hn Hr [H1 H2 H3].
  constructor; rewrite ?Ht, ?Hn, ?Hr; assumption.
Qed.

Lemma showStatus_timers (msg : string) (ty : StatusType) (st : Editor) :
  timers (showStatus msg ty st)
  = uncancelled st ++ [{| timer_id := nextTimer st;
                          due := (clock st + 1000)%Z;
                          action := ClearStatus |}].
Proof.
  unfold showStatus, uncancelled. destruct (statusTimeoutRef st); reflexivity.
Qed.

Lemma showStatus_ref (msg : string) (ty : StatusType) (st : Editor) :
  statusTimeoutRef (showStatus msg ty st) = Some (nextTimer st).
Proof. unfold showStatus. destruct (statusTimeoutRef st); reflexivity. Qed.

Lemma showStatus_nextTimer (msg : string) (ty : StatusType) (st : Editor) :
  nextTimer (showStatus msg ty st) = Pos.succ (nextTimer st).
Proof. unfold showStatus. destruct (statusTimeoutRef st); reflexivity. Qed.

Lemma uncancelled_incl (st : Editor) (t : Timer) :
  In t (uncancelled st) -> In t (timers st).
Proof.
  unfold uncancelled. destruct (statusTimeoutRef st); [|tauto].
  intros H. now apply filter_In in H.
Qed.

(** No dismissal survives the cancellation. *)
Lemma uncancelled_no_dismissal (st : Editor) (t : Timer) :
  timers_ok st -> In t (uncancelled st) -> action t <> ClearStatus.
Proof.
  intros [_ _ Hone] Hin Hact. unfold uncancelled in Hin.
  destruct (statusTimeoutRef st) as [a|] eqn:Ea.
  - apply filter_In in Hin. destruct Hin as [Hin Hne].
    specialize (Hone t Hin Hact). injection Hone as ->.
    rewrite Pos.eqb_refl in Hne. discriminate.
  - specialize (Hone t Hin Hact). discriminate.
Qed.

Lemma timers_ok_showStatus (msg : string) (ty : StatusType) (st : Editor) :
  timers_ok st -> timers_ok (showStatus msg ty st).
Proof.
  intros Hok. pose proof Hok as [Hfresh Href Hone].
  constructor.
  - rewrite showStatus_timers, showStatus_nextTimer.
    apply Forall_app. split.
    + apply Forall_forall. intros t Ht. apply uncancelled_incl in Ht.
      rewrite Forall_forall in Hfresh. specialize (Hfresh t Ht). lia.
    + constructor; [simpl; lia | constructor].
  - rewrite showStatus_ref, showStatus_nextTimer.
    intros id [= <-]. lia.
  - rewrite showStatus_timers, showStatus_ref. intros t Hin Hact.
    apply in_app_or in Hin. destruct Hin as [Hin|[<-|[]]]; [|reflexivity].
    exfalso. eapply uncancelled_no_dismissal; eauto.
Qed.

Lemma timers_ok_fireTimer (id : TimerId) (st st' : Editor) :
  timers_ok st -> fireTimer id st = Some st' -> timers_ok st'.
Proof.
  intros [Hfresh Href Hone]. unfold fireTimer.
  destruct (findTimer id (timers st)) as [t|]; [|discriminate].
  destruct (due t <=? clock st)%Z; [|discriminate].
  intros [= <-].
  assert (Hsub : forall u,
             In u (filter (fun t => negb (Pos.eqb (timer_id t) id)) (timers st))
             -> In u (timers st))
    by (intros u Hu; now apply filter_In in Hu).
  destruct (action t); simpl; constructor; simpl; auto.
  all: apply Forall_forall; intros u Hu; apply Hsub in Hu;
    rewrite Forall_forall in Hfresh; auto.
Qed.

Lemma timers_ok_setTimeout_HideModal (delay : Z) (st : Editor) :
  timers_ok st -> timers_ok (snd (setTimeout HideModal delay st)).
Proof.
  intros [Hfresh Href Hone]. constructor; simpl.
  - apply Forall_app. split.
    + eapply Forall_impl; [|exact Hfresh]. simpl. intros; lia.
    + constructor; [simpl; lia | constructor].
  - intros id Hid. specialize (Href id Hid). lia.
  - intros t Hin Hact. apply in_app_or in Hin.
    destruct Hin as [Hin|[<-|[]]]; [auto | discriminate].
Qed.

(** ** What one event does to the transform and to the overlay variant *)

Lemma showStatus_transform (msg : string) (ty : StatusType) (st : Editor) :
  transform (showStatus msg ty st) = transform st.
Proof. apply showStatus_sameEditorState. Qed.

Lemma showStatus_overlayVariant (msg : string) (ty : StatusType) (st : Editor) :
  overlayVariant (showStatus msg ty st) = overlayVariant st.
Proof.
  unfold overlayVariant, showStatus.
  destruct (statusTimeoutRef st); reflexivity.
Qed.

Lemma fireTimer_inv (id : TimerId) (st st' : Editor) :
  fireTimer id st = Some st' ->
  exists t, findTimer id (timers st) = Some t /\ (due t <= clock st)%Z /\
            st' = runAction (action t) (clearTimeout id st).
Proof.
  unfold fireTimer. destruct (findTimer id (timers st)) as [t|]; [|discriminate].
  destruct (due t <=? clock st)%Z eqn:E; [|discriminate].
  intros [= <-]. exists t. repeat split. now apply Z.leb_le.
Qed.

Lemma fireTimer_transform (id : TimerId) (st st' : Editor) :
  fireTimer id st = Some st' -> transform st' = transform st.
Proof.
  intros H. apply fireTimer_inv in H. destruct H as (t & _ & _ & ->).
  destruct (action t); reflexivity.
Qed.

Lemma fireTimer_overlayVariant (id : TimerId) (st st' : Editor) :
  fireTimer id st = Some st' -> overlayVariant st' = overlayVariant st.
Proof.
  intros H. apply fireTimer_inv in H. destruct H as (t & _ & _ & ->).
  destruct (action t); reflexivity.
Qed.

Lemma handleSave_transform (v : Variant) (dom : Dom) (captured : Asset)
    (st : Editor) :
  transform (fst (handleSave v dom captured st)) = transform st.
Proof.
  destruct (handleSave_state v dom captured st) as [->|(msg & ty & ->)];
    [reflexivity | apply showStatus_transform].
Qed.

Lemma handleSave_overlayVariant (v : Variant) (dom : Dom) (captured : Asset)
    (st : Editor) :
  overlayVariant (fst (handleSave v dom captured st)) = overlayVariant st.
Proof.
  destruct (handleSave_state v dom captured st) as [->|(msg & ty & ->)];
    [reflexivity | apply showStatus_overlayVariant].
Qed.

(** Every event leaves the transform alone, or applies one of the three
    updates, or resets it. *)
Lemma step_transform (v : Variant) (ev : Event) (st st' : Editor) :
  step v ev st = Some st' ->
  transform st' = transform st \/
  (exists d, transform st' = rotate_update d (transform st)) \/
  (exists d, transform st' = scale_update d (transform st)) \/
  (exists p, transform st' = position_update p (transform st)) \/
  transform st' = defaultTransform.
Proof.
  destruct ev; simpl; intros Hs;
    try (injection Hs as <-).
  - left. unfold handleTouchStart. destruct touches as [|? [|]]; reflexivity.
  - unfold handleTouchMove.
    destruct (isDragging st), touches as [|? [|]]; simpl; eauto 6.
  - now left.
  - now left.
  - unfold handleMouseMove. destruct (isDragging st); simpl; eauto 6.
  - now left.
  - simpl; eauto 6.
  - simpl; eauto 6.
  - left. destruct v; simpl; try reflexivity.
    destruct (isFlipped st); reflexivity.
  - left. destruct v; simpl in Hs; try discriminate; injection Hs as <-;
      try reflexivity.
    destruct (isFlipped st); reflexivity.
  - left. destruct v; simpl in Hs; try discriminate; injection Hs as <-;
      reflexivity.
  - do 4 right. destruct v; reflexivity.
  - left. apply handleSave_transform.
  - left. destruct v; simpl in Hs; try discriminate; injection Hs as <-;
      reflexivity.
  - left. destruct v; try discriminate.
    destruct (showModal st); [|discriminate]. injection Hs as <-. reflexivity.
  - left. unfold handleBaseImageUpload.
    destruct fileType as [ty|]; [|reflexivity].
    destruct (negb (String.prefix "image/" ty));
      [apply showStatus_transform | reflexivity].
  - now left.
  - left. unfold img_onload. now rewrite showStatus_transform.
  - now left.
  - left. eapply fireTimer_transform; eauto.
Qed.

(** ** The clamp of [handleScale] *)

Lemma Math_clamp_bounds (q : Q) : 0.1 <= Math_max 0.1 (Math_min 7 q) <= 7.
Proof.
  unfold Math_max, Math_min. split.
  - apply Q.le_max_l.
  - apply Q.max_lub; [lra | apply Q.le_min_l].
Qed.

Lemma Math_clamp_clamp (q : Q) : Math_max 0.1 (Math_min 7 q) == clamp 0.1 7 q.
Proof.
  unfold Math_max, Math_min, clamp.
  destruct (Qlt_le_dec q 0.1) as [Hlo|Hlo].
  - rewrite Q.min_r by lra. apply Q.max_l. lra.
  - destruct (Qlt_le_dec 7 q) as [Hhi|Hhi].
    + rewrite Q.min_l by lra. apply Q.max_r. lra.
    + rewrite Q.min_r by lra. apply Q.max_r. lra.
Qed.

Lemma scale_update_bounds (d : ScaleDirection) (t : Transform) :
  0.1 <= scale (scale_update d t) <= 7.
Proof. apply Math_clamp_bounds. Qed.

(** ** The invariant *)

(** A step that touches neither the timers nor the ref. *)
Ltac timers_untouched Hok :=
  eapply timers_ok_same; [| | |exact Hok]; reflexivity.

Lemma step_timers_ok (v : Variant) (ev : Event) (st st' : Editor) :
  timers_ok st -> step v ev st = Some st' -> timers_ok st'.
Proof.
  intros Hok.
  destruct ev; simpl; intros Hs;
    try (injection Hs as <-);
    try timers_untouched Hok.
  - unfold handleTouchStart. destruct touches as [|? [|]]; try exact Hok.
    timers_untouched Hok.
  - unfold handleTouchMove.
    destruct (isDragging st), touches as [|? [|]]; try exact Hok.
    timers_untouched Hok.
  - unfold handleMouseMove. destruct (isDragging st); [|exact Hok].
    timers_untouched Hok.
  - destruct v; simpl; try (destruct (isFlipped st));
      timers_untouched Hok.
  - destruct v; simpl in Hs; try discriminate; injection Hs as <-;
      try (destruct (isFlipped st));
      timers_untouched Hok.
  - destruct v; simpl in Hs; try discriminate; injection Hs as <-.
    timers_untouched Hok.
  - destruct v; timers_untouched Hok.
  - destruct (handleSave_state v dom captured st) as [->|(msg & ty & ->)];
      [exact Hok | now apply timers_ok_showStatus].
  - destruct v; simpl in Hs; try discriminate; injection Hs as <-.
    apply (timers_ok_setTimeout_HideModal 2000 (setShowModal true st)).
    timers_untouched Hok.
  - destruct v; try discriminate.
    destruct (showModal st); [|discriminate]. injection Hs as <-.
    timers_untouched Hok.
  - unfold handleBaseImageUpload. destruct fileType as [ty|]; [|exact Hok].
    destruct (negb (String.prefix "image/" ty));
      [now apply timers_ok_showStatus | exact Hok].
  - unfold img_onload. apply timers_ok_showStatus.
    timers_untouched Hok.
  - eapply timers_ok_fireTimer; eauto.
Qed.

Lemma selectedHat_overlayVariant (v : Variant) (st st' : Editor) :
  overlayVariant st' = overlayVariant st ->
  currentHatImage st = selectedHat v st ->
  currentHatImage st' = selectedHat v st'.
Proof.
  unfold overlayVariant. intros [= Ha Hf Ht Hc].
  destruct v; simpl; rewrite ?Ha, ?Hf, ?Ht, ?Hc; auto.
Qed.

Lemma step_hat (v : Variant) (ev : Event) (st st' : Editor) :
  currentHatImage st = selectedHat v st ->
  step v ev st = Some st' ->
  currentHatImage st' = selectedHat v st'.
Proof.
  intros Hhat.
  destruct ev; simpl; intros Hs;
    try (injection Hs as <-);
    try (apply (selectedHat_overlayVariant v st); [reflexivity | exact Hhat]).
  - apply (selectedHat_overlayVariant v st); [|exact Hhat].
    unfold handleTouchStart. destruct touches as [|? [|]]; reflexivity.
  - apply (selectedHat_overlayVariant v st); [|exact Hhat].
    unfold handleTouchMove.
    destruct (isDragging st), touches as [|? [|]]; reflexivity.
  - apply (selectedHat_overlayVariant v st); [|exact Hhat].
    unfold handleMouseMove. destruct (isDragging st); reflexivity.
  - clear Hhat. destruct st as [? ? cur tp fl ? ? ? ? ? ? ? ? ? ?].
    destruct v; simpl.
    + destruct cur; reflexivity.
    + destruct fl, tp; reflexivity.
    + destruct fl; reflexivity.
    + destruct fl; reflexivity.
    + reflexivity.
  - clear Hhat. destruct st as [? ? cur tp fl ? ? ? ? ? ? ? ? ? ?].
    destruct v; simpl in *; try discriminate; injection Hs as <-.
    + destruct fl, tp; reflexivity.
    + reflexivity.
  - destruct v; simpl in *; try discriminate; injection Hs as <-. reflexivity.
  - destruct v; simpl in *; try reflexivity.
    rewrite Hhat. destruct (currentHatImage st); reflexivity.
  - apply (selectedHat_overlayVariant v st); [|exact Hhat].
    apply handleSave_overlayVariant.
  - destruct v; simpl in Hs; try discriminate; injection Hs as <-.
    apply (selectedHat_overlayVariant _ st); [reflexivity | exact Hhat].
  - destruct v; try discriminate.
    destruct (showModal st); [|discriminate]. injection Hs as <-.
    apply (selectedHat_overlayVariant _ st); [reflexivity | exact Hhat].
  - apply (selectedHat_overlayVariant v st); [|exact Hhat].
    unfold handleBaseImageUpload. destruct fileType as [ty|]; [|reflexivity].
    destruct (negb (String.prefix "image/" ty));
      [apply showStatus_overlayVariant | reflexivity].
  - apply (selectedHat_overlayVariant v st); [|exact Hhat].
    unfold img_onload. now rewrite showStatus_overlayVariant.
  - apply (selectedHat_overlayVariant v st); [|exact Hhat].
    eapply fireTimer_overlayVariant; eauto.
Qed.

Lemma rotate_update_multiple (d : RotateDirection) (t : Transform) (k : Z) :
  rotation t = inject_Z (15 * k) ->
  rotation (rotate_update d t)
  = inject_Z (15 * (k + match d with left => -1 | right => 1 end)).
Proof.
  intros H. unfold rotate_update. cbn [rotation]. rewrite H.
  destruct d; unfold inject_Z, Qplus; cbn [Qnum Qden Pos.mul];
    f_equal; lia.
Qed.

Lemma invariant_initial (v : Variant) : invariant v (initial v).
Proof.
  constructor; simpl.
  - reflexivity.
  - lra.
  - now exists 0%Z.
  - destruct v; reflexivity.
  - constructor; simpl; [constructor | discriminate | tauto].
Qed.

Lemma invariant_step (v : Variant) (ev : Event) (st st' : Editor) :
  invariant v st -> step v ev st = Some st' -> invariant v st'.
Proof.
  intros [Hflip Hscale [k Hrot] Hhat Htimers] Hs.
  constructor.
  - destruct (step_transform _ _ _ _ Hs)
      as [->|[[d ->]|[[d ->]|[[p ->]| ->]]]]; auto.
  - destruct (step_transform _ _ _ _ Hs)
      as [->|[[d ->]|[[d ->]|[[p ->]| ->]]]]; auto.
    + apply scale_update_bounds.
    + simpl; lra.
  - destruct (step_transform _ _ _ _ Hs)
      as [->|[[d ->]|[[d ->]|[[p ->]| ->]]]]; eauto.
    + eexists. apply rotate_update_multiple. exact Hrot.
    + now exists 0%Z.
  - eapply step_hat; eauto.
  - eapply step_timers_ok; eauto.
Qed.

Lemma reachable_invariant (v : Variant) (st : Editor) :
  reachable v st -> invariant v st.
Proof.
  induction 1 as [|st ev st' _ IH Hs];
    [apply invariant_initial | eapply invariant_step; eauto].
Qed.

(** ** Reset *)

(** In the two-colour copy reset keeps the colour in use: after choosing the
    blue hat, reset selects the blue hat, not the hat of the mount. *)
Lemma handleReset_colour_counterexample :
  exists st,
    run ElizaColor [clickColor blue] (initial ElizaColor) = Some st /\
    currentHatImage (handleReset ElizaColor st) = blueRightImage /\
    currentHatImage (handleReset ElizaColor st) <> defaultHatImage ElizaColor.
Proof.
  eexists. split; [reflexivity|]. split; [reflexivity | discriminate].
Qed.

(** The single-hat copy resets the transform only: a flipped hat stays
    flipped. *)
Lemma handleReset_Ai16z_hat (st : Editor) :
  currentHatImage (handleReset Ai16z st) = currentHatImage st.
Proof. reflexivity. Qed.

Example handleReset_Ai16z_after_flip :
  option_map currentHatImage
    (run Ai16z [clickFlip; clickReset] (initial Ai16z)) = Some leftImage.
Proof. reflexivity. Qed.

(** C1, as amended.  From any state, in every copy, reset yields exactly
    the default transform; in every copy that keeps a flip state it clears
    the flip and tape toggles and selects the hat that is neither flipped
    nor taped, of the colour in use: the default hat in the single-colour
    copies, while the two-colour copy keeps the colour.  Reset twice is
    reset once. *)
Theorem handleReset_defaults (v : Variant) (st : Editor) :
  transform (handleReset v st) = defaultTransform /\
  match v with
  | Ai16z => True
  | ElizaTape | Sweetychat | SweetychatWindow =>
      currentHatImage (handleReset v st) = defaultHatImage v /\
      isFlipped (handleReset v st) = false
  | ElizaColor =>
      currentHatImage (handleReset v st) = getHatImage (hatColor st) false false /\
      currentHatImage (handleReset v st)
        = match hatColor st with
          | orange => defaultHatImage v
          | blue => blueRightImage
          end /\
      hatColor (handleReset v st) = hatColor st /\
      isFlipped (handleReset v st) = false
  end /\
  match v with
  | ElizaTape | ElizaColor => hasTape (handleReset v st) = false
  | _ => True
  end /\
  handleReset v (handleReset v st) = handleReset v st.
Proof.
  destruct v; simpl; repeat split; reflexivity.
Qed.

(** ** Rotation *)

Lemma Qplus_integer (q : Q) (k : Z) :
  q + (k # 1) = (Qnum q + k * QDen q)%Z # Qden q.
Proof.
  destruct q as [n d]. unfold Qplus. simpl.
  f_equal; [ring | apply Pos.mul_1_r].
Qed.

Lemma rotateTimes_transform (n : nat) (d : RotateDirection) (st : Editor) :
  transform (rotateTimes n d st) = Nat.iter n (rotate_update d) (transform st).
Proof.
  unfold rotateTimes. induction n as [|n IH]; simpl; [reflexivity|].
  now rewrite IH.
Qed.

(** [n] rotations by [k] degrees each: the other fields stay, the rotation
    is the sum, as one fraction over the denominator it had. *)
Lemma rotate_update_iter (n : nat) (d : RotateDirection) (t : Transform) :
  let k := match d with left => (-15)%Z | right => 15%Z end in
  Nat.iter n (rotate_update d) t =
  {| position := position t;
     rotation := (Qnum (rotation t) + Z.of_nat n * k * QDen (rotation t))%Z
                 # Qden (rotation t);
     scale := scale t;
     flipX := flipX t |}.
Proof.
  intros k. induction n as [|n IH].
  - simpl. destruct t as [p [rn rd] s f]. simpl. f_equal. f_equal. lia.
  - rewrite Nat.iter_succ, IH. unfold rotate_update at 1.
    cbn [position rotation scale flipX]. f_equal.
    replace (match d with left => -15 | right => 15 end) with (k # 1)
      by (destruct d; reflexivity).
    clearbody k. rewrite Qplus_integer. cbn [Qnum Qden]. f_equal.
    rewrite Nat2Z.inj_succ. ring.
Qed.

(** C6.  Each rotate-right adds exactly 15 and each rotate-left adds exactly
    -15 to the rotation, with no clamp and no wrap: after [n] of one kind
    the rotation is the original plus or minus [15 n]; and [n] rotate-right
    followed by [n] rotate-left give back the original transform, rotation
    included, exactly. *)
Theorem handleRotate_right_left (n : nat) (st : Editor) :
  rotation (transform (handleRotate right st)) = rotation (transform st) + 15 /\
  rotation (transform (handleRotate left st)) = rotation (transform st) + -15 /\
  rotation (transform (rotateTimes n right st))
    == rotation (transform st) + 15 * inject_Z (Z.of_nat n) /\
  rotation (transform (rotateTimes n left st))
    == rotation (transform st) - 15 * inject_Z (Z.of_nat n) /\
  transform (rotateTimes n left (rotateTimes n right st)) = transform st.
Proof.
  split; [reflexivity|]. split; [reflexivity|].
  rewrite !rotateTimes_transform.
  pose proof (rotate_update_iter n right) as Hr.
  pose proof (rotate_update_iter n left) as Hl.
  cbv zeta in Hr, Hl. rewrite Hr, !Hl. cbn [position rotation scale flipX].
  destruct (transform st) as [p [rn rd] s f]. cbn [rotation Qnum Qden].
  split; [|split].
  - unfold Qeq, Qplus, Qmult, inject_Z. cbn [Qnum Qden].
    rewrite ?Pos2Z.inj_mul. ring.
  - unfold Qeq, Qminus, Qplus, Qopp, Qmult, inject_Z. cbn [Qnum Qden].
    rewrite ?Pos2Z.inj_mul. ring.
  - f_equal. f_equal. ring.
Qed.

(** ** Frame of the transform updates *)

(** C10.  A rotate action changes the rotation only, a scale action the
    scale only, and a drag move (mouse or touch, dragging or not) the
    position only: the other fields of the transform are the ones before. *)
Theorem transform_update_frame (st : Editor) :
  (forall d,
      position (transform (handleRotate d st)) = position (transform st) /\
      scale (transform (handleRotate d st)) = scale (transform st) /\
      flipX (transform (handleRotate d st)) = flipX (transform st)) /\
  (forall d,
      position (transform (handleScale d st)) = position (transform st) /\
      rotation (transform (handleScale d st)) = rotation (transform st) /\
      flipX (transform (handleScale d st)) = flipX (transform st)) /\
  (forall e,
      rotation (transform (handleMouseMove e st)) = rotation (transform st) /\
      scale (transform (handleMouseMove e st)) = scale (transform st) /\
      flipX (transform (handleMouseMove e st)) = flipX (transform st)) /\
  (forall touches,
      rotation (transform (handleTouchMove touches st)) = rotation (transform st) /\
      scale (transform (handleTouchMove touches st)) = scale (transform st) /\
      flipX (transform (handleTouchMove touches st)) = flipX (transform st)).
Proof.
  repeat split; try reflexivity.
  all: try (unfold handleMouseMove; destruct (isDragging st); reflexivity).
  all: unfold handleTouchMove;
    destruct (isDragging st), touches as [|? [|]]; reflexivity.
Qed.

(** ** Scale *)

Lemma scaleActions_snoc (ds : list ScaleDirection) (d : ScaleDirection)
    (st : Editor) :
  scaleActions (ds ++ [d]) st = handleScale d (scaleActions ds st).
Proof. unfold scaleActions. now rewrite fold_left_app. Qed.

(** C3.  Starting from a scale of 1, the default, after every finite
    sequence of scale-up and scale-down actions the scale lies in
    [0.1, 7]; and one action sets the scale to the current scale times 1.1
    (up) or 0.9 (down), clamped into [0.1, 7]. *)
Theorem handleScale_clamped (ds : list ScaleDirection) (st : Editor) :
  scale (transform st) == 1 ->
  0.1 <= scale (transform (scaleActions ds st)) <= 7 /\
  (forall st' d,
      scale (transform (handleScale d st'))
      == clamp 0.1 7 (scale (transform st')
                      * match d with up => 1.1 | down => 0.9 end)).
Proof.
  intros Hone. split.
  - destruct ds as [|d ds _] using rev_ind.
    + simpl. lra.
    + rewrite scaleActions_snoc. apply scale_update_bounds.
  - intros st' d. apply Math_clamp_clamp.
Qed.

Lemma handleScale_clamped_witness :
  scale (transform (initial Ai16z)) = 1 /\
  scale (transform (scaleActions (repeat up 25) (initial Ai16z))) = 7 /\
  scale (transform (scaleActions (repeat down 25) (initial Ai16z))) = 0.1 /\
  0.1 <= scale (transform (scaleActions [up; up; down; up; down; down; down]
                             (initial Ai16z))) <= 7.
Proof.
  split; [reflexivity|]. split; [vm_compute; reflexivity|].
  split; [vm_compute; reflexivity|].
  apply (handleScale_clamped [up; up; down; up; down; down; down]
           (initial Ai16z)).
  reflexivity.
Defined.

(** ** Export without a base image *)

(** C4.  With no base image uploaded, [handleSave] does nothing outside the
    component (no canvas is created, nothing is drawn, nothing is
    downloaded), shows the error notice, and leaves every other part of the
    editor state as it was. *)
Theorem handleSave_without_base_image (v : Variant) (dom : Dom)
    (captured : Asset) (st : Editor) :
  baseImage st = EmptyString ->
  snd (handleSave v dom captured st) = [] /\
  existsb isDownload (snd (handleSave v dom captured st)) = false /\
  canvasCalls (snd (handleSave v dom captured st)) = [] /\
  fst (handleSave v dom captured st)
    = showStatus "Please upload an image first" error st /\
  status (fst (handleSave v dom captured st))
    = Some {| message := "Please upload an image first"; type := error |} /\
  sameEditorState st (fst (handleSave v dom captured st)).
Proof.
  intros Hbase. unfold handleSave. rewrite Hbase. cbn [fst snd].
  do 4 (split; [reflexivity|]).
  split; [apply showStatus_status | apply showStatus_sameEditorState].
Qed.

Lemma handleSave_without_base_image_witness :
  baseImage (initial ElizaTape) = EmptyString /\
  snd (handleSave ElizaTape
         {| overlayRef_current := Some (Some {| rect_width := 100; rect_height := 80 |});
            containerRef_current := Some {| rect_width := 800; rect_height := 600 |};
            getContext_2d := true; baseImg_onload := true;
            hatImg_onload := Some {| width := 512; height := 400 |} |}
         rightImage (initial ElizaTape)) = [].
Proof.
  split; [reflexivity|].
  apply (handleSave_without_base_image ElizaTape _ rightImage (initial ElizaTape)).
  reflexivity.
Defined.

(** ** Flip *)

(** C7.  From every reachable state, flipping twice gives back the overlay
    variant: the hat asset and the flip state (and the tape and colour
    toggles) are the ones before; so is the rest of the state. *)
Theorem handleFlip_twice (v : Variant) (st : Editor) :
  reachable v st ->
  overlayVariant (handleFlip v (handleFlip v st)) = overlayVariant st /\
  currentHatImage (handleFlip v (handleFlip v st)) = currentHatImage st /\
  isFlipped (handleFlip v (handleFlip v st)) = isFlipped st /\
  handleFlip v (handleFlip v st) = st.
Proof.
  intros Hr. apply reachable_invariant in Hr. destruct Hr as [_ _ _ Hhat _].
  assert (H : handleFlip v (handleFlip v st) = st).
  { destruct st as [? ? cur tp fl ? ? ? ? ? ? ? ? ? ?].
    destruct v; simpl in *.
    - destruct cur; try discriminate; reflexivity.
    - subst cur. destruct fl, tp; reflexivity.
    - subst cur. destruct fl; reflexivity.
    - subst cur. destruct fl; reflexivity.
    - subst cur. destruct fl; reflexivity. }
  rewrite H. repeat split; reflexivity.
Qed.

Lemma handleFlip_twice_witness :
  exists st,
    run ElizaTape [clickTape; clickFlip; clickRotate right] (initial ElizaTape)
      = Some st /\
    currentHatImage st = leftTapeImage /\
    currentHatImage (handleFlip ElizaTape st) = rightTapeImage /\
    overlayVariant (handleFlip ElizaTape (handleFlip ElizaTape st))
      = overlayVariant st.
Proof.
  eexists. split; [reflexivity|]. split; [reflexivity|].
  split; [reflexivity|].
  refine (proj1 (handleFlip_twice ElizaTape _ _)).
  apply (reachable_run ElizaTape
           [clickTape; clickFlip; clickRotate right] (initial ElizaTape));
    [apply reachable_initial | reflexivity].
Defined.

(** ** Drag *)

Lemma lastContact_snoc (acc : option Pointer) (before : list DragMove)
    (m : DragMove) (c : Pointer) :
  moveContact m = Some c -> lastContact acc (before ++ [m]) = Some c.
Proof.
  intros Hm. unfold lastContact. rewrite fold_left_app. simpl. now rewrite Hm.
Qed.

(** While dragging, a list of moves leaves the overlay at its last contact
    point minus the grab offset, and the drag goes on. *)
Lemma run_moves (v : Variant) (moves : list DragMove) :
  forall (st : Editor) (acc : option Pointer) (before : Position),
    isDragging st = true ->
    position (transform st) = dragPosition (dragStart st) before acc ->
    exists st',
      run v (map moveEvent moves) st = Some st' /\
      isDragging st' = true /\
      dragStart st' = dragStart st /\
      position (transform st')
        = dragPosition (dragStart st) before (lastContact acc moves).
Proof.
  induction moves as [|m moves IH]; intros st acc before Hdrag Hpos.
  - exists st. simpl. auto.
  - assert (Hstep : exists st1,
               step v (moveEvent m) st = Some st1 /\
               isDragging st1 = true /\ dragStart st1 = dragStart st /\
               position (transform st1)
                 = dragPosition (dragStart st) before
                     (match moveContact m with Some p => Some p | None => acc end)).
    { destruct m as [e|touches]; simpl.
      - eexists. split; [reflexivity|]. unfold handleMouseMove.
        rewrite Hdrag. simpl. auto.
      - eexists. split; [reflexivity|]. unfold handleTouchMove.
        rewrite Hdrag. destruct touches as [|touch [|]]; simpl; auto. }
    destruct Hstep as (st1 & Hs & Hd1 & Ho1 & Hp1).
    rewrite <- Ho1 in Hp1.
    destruct (IH st1 _ before Hd1 Hp1) as (st' & Hrun & Hd' & Ho' & Hp').
    exists st'. simpl. rewrite Hs. rewrite Ho1 in *. auto.
Qed.

Lemma showStatus_isDragging (msg : string) (ty : StatusType) (st : Editor) :
  isDragging (showStatus msg ty st) = isDragging st.
Proof. apply showStatus_sameEditorState. Qed.

Lemma fireTimer_pointer (id : TimerId) (st st' : Editor) :
  fireTimer id st = Some st' -> isDragging st' = isDragging st.
Proof.
  intros H. apply fireTimer_inv in H. destruct H as (t & _ & _ & ->).
  destruct (action t); reflexivity.
Qed.

Lemma handleSave_isDragging (v : Variant) (dom : Dom) (captured : Asset)
    (st : Editor) :
  isDragging (fst (handleSave v dom captured st)) = isDragging st.
Proof.
  destruct (handleSave_state v dom captured st) as [->|(msg & ty & ->)];
    [reflexivity | apply showStatus_sameEditorState].
Qed.

(** When no drag is on, an event that neither starts one nor resets leaves
    the position where it is, and starts no drag. *)
Lemma step_quiet (v : Variant) (ev : Event) (st st' : Editor) :
  isDragging st = false -> quiet ev = true -> step v ev st = Some st' ->
  position (transform st') = position (transform st) /\ isDragging st' = false.
Proof.
  intros Hdrag Hq.
  assert (Hshow : forall msg ty,
             position (transform (showStatus msg ty st))
               = position (transform st) /\
             isDragging (showStatus msg ty st) = false).
  { intros msg ty. rewrite showStatus_transform, showStatus_isDragging. auto. }
  destruct ev; try discriminate Hq; simpl; intros Hs;
    try (injection Hs as <-); auto.
  - destruct touches as [|? [|]]; try discriminate Hq; simpl; auto.
  - unfold handleTouchMove. rewrite Hdrag. auto.
  - unfold handleMouseMove. rewrite Hdrag. auto.
  - destruct v; simpl; try destruct (isFlipped st); auto.
  - destruct v; simpl in Hs; try discriminate; injection Hs as <-;
      try destruct (isFlipped st); auto.
  - destruct v; simpl in Hs; try discriminate; injection Hs as <-; auto.
  - rewrite handleSave_transform, handleSave_isDragging. auto.
  - destruct v; simpl in Hs; try discriminate; injection Hs as <-; auto.
  - destruct v; try discriminate.
    destruct (showModal st); [|discriminate]. injection Hs as <-. auto.
  - unfold handleBaseImageUpload. destruct fileType as [ty|]; auto.
    destruct (negb (String.prefix "image/" ty)); auto.
  - unfold img_onload. rewrite showStatus_transform, showStatus_isDragging.
    auto.
  - rewrite (fireTimer_transform _ _ _ Hs), (fireTimer_pointer _ _ _ Hs). auto.
Qed.

Lemma run_quiet (v : Variant) (evs : list Event) :
  forall st st',
    isDragging st = false -> forallb quiet evs = true ->
    run v evs st = Some st' ->
    position (transform st') = position (transform st) /\
    isDragging st' = false.
Proof.
  induction evs as [|ev evs IH]; simpl; intros st st' Hdrag Hq Hrun.
  - injection Hrun as <-. auto.
  - apply andb_prop in Hq. destruct Hq as [Hq1 Hq2].
    destruct (step v ev st) as [st1|] eqn:Hs; [|discriminate].
    destruct (step_quiet _ _ _ _ Hdrag Hq1 Hs) as [Hp1 Hd1].
    destruct (IH _ _ Hd1 Hq2 Hrun) as [Hp Hd]. split; congruence.
Qed.

(** C2.  A drag sequence (a drag-start by mouse or by one touch, any finite
    list of moves, a drag-end) always runs, and leaves the overlay at the
    last contact point minus the grab offset, the start contact point minus
    the position at drag-start; with no contact point among the moves the
    overlay stays where it was, which is that formula at the start contact
    point.  The result depends on the moves through their last contact
    point only.  After the drag-end no drag is on, and no event moves the
    overlay before the next drag-start (reset, a separate action, apart). *)
Theorem drag_sequence_position (v : Variant) (s : DragStart)
    (moves : list DragMove) (e : DragEnd) (st : Editor) :
  let dragStartOffset := grabOffset (startContact s) (position (transform st)) in
  exists st',
    run v (dragEvents s moves e) st = Some st' /\
    position (transform st')
      = dragPosition dragStartOffset (position (transform st))
          (lastContact None moves) /\
    (forall before m c,
        moveContact m = Some c ->
        dragPosition dragStartOffset (position (transform st))
          (lastContact None (before ++ [m])) = tracked c dragStartOffset) /\
    (x (tracked (startContact s) dragStartOffset) == x (position (transform st)) /\
     y (tracked (startContact s) dragStartOffset) == y (position (transform st))) /\
    isDragging st' = false /\
    (forall evs st'',
        forallb quiet evs = true -> run v evs st' = Some st'' ->
        position (transform st'') = position (transform st')).
Proof.
  intros dragStartOffset.
  set (st0 := set_dragStart dragStartOffset (set_isDragging true st)).
  assert (Hstart : step v (startEvent s) st = Some st0)
    by (destruct s; reflexivity).
  destruct (run_moves v moves st0 None (position (transform st)))
    as (st1 & Hrun & Hd1 & Ho1 & Hp1); [reflexivity | reflexivity |].
  exists (set_isDragging false st1).
  split; [|split; [|split; [|split; [|split]]]].
  - unfold dragEvents. simpl run. rewrite Hstart, run_app, Hrun.
    destruct e; reflexivity.
  - exact Hp1.
  - intros before m c Hm. now rewrite (lastContact_snoc None before m c Hm).
  - unfold dragStartOffset. simpl. split; ring.
  - reflexivity.
  - intros evs st'' Hq Hr.
    now destruct (run_quiet v evs (set_isDragging false st1) st'' eq_refl Hq Hr).
Qed.

Lemma drag_sequence_position_witness :
  exists st',
    run Sweetychat
      (dragEvents (mouseDown {| clientX := 10; clientY := 20 |})
         [mouseMove {| clientX := 15; clientY := 25 |};
          touchMove [{| clientX := 1; clientY := 2 |};
                     {| clientX := 3; clientY := 4 |}];
          mouseMove {| clientX := 60; clientY := -10 |}]
         mouseUp)
      (initial Sweetychat) = Some st' /\
    position (transform st')
      = {| x := 60 - (10 - 0); y := -10 - (20 - 0) |} /\
    forall st'',
      run Sweetychat
        [onMouseMove {| clientX := 100; clientY := 100 |};
         onTouchMove [{| clientX := 7; clientY := 7 |}];
         clickRotate right; clickScale up; clickFlip] st' = Some st'' ->
      position (transform st'') = position (transform st').
Proof.
  destruct (drag_sequence_position Sweetychat
              (mouseDown {| clientX := 10; clientY := 20 |})
              [mouseMove {| clientX := 15; clientY := 25 |};
               touchMove [{| clientX := 1; clientY := 2 |};
                          {| clientX := 3; clientY := 4 |}];
               mouseMove {| clientX := 60; clientY := -10 |}]
              mouseUp (initial Sweetychat))
    as (st' & Hrun & Hpos & _ & _ & _ & Hafter).
  exists st'. split; [exact Hrun|]. split; [exact Hpos|].
  intros st''. apply Hafter. reflexivity.
Defined.

(** ** Superseding a status notice *)

Lemma findTimer_None_In (id : TimerId) (l : list Timer) (t : Timer) :
  findTimer id l = None -> In t l -> timer_id t <> id.
Proof.
  unfold findTimer. intros Hnone Hin Heq.
  pose proof (find_none _ _ Hnone t Hin) as H. simpl in H.
  apply Pos.eqb_neq in H. contradiction.
Qed.

(** Time passing and timers firing: no timer is added, only pending timers
    fire, once due, and the notice changes only when a dismissal fires. *)
Lemma passive_step (v : Variant) (ev : Event) (st st' : Editor) :
  passive ev = true -> step v ev st = Some st' ->
  (forall t, In t (timers st') -> In t (timers st)) /\
  (clock st <= clock st')%Z /\
  (forall id, ev = timeout id ->
              exists t, In t (timers st) /\ timer_id t = id /\
                        (due t <= clock st')%Z /\
                        (action t = ClearStatus -> status st' = None) /\
                        (action t <> ClearStatus -> status st' = status st)) /\
  ((forall id, ev <> timeout id) -> status st' = status st).
Proof.
  destruct ev; try discriminate; intros _; simpl; intros Hs.
  - injection Hs as <-. simpl. repeat split; auto; try lia.
    intros id [=].
  - apply fireTimer_inv in Hs. destruct Hs as (t & Hfind & Hdue & ->).
    apply findTimer_In in Hfind. destruct Hfind as [Hin Hid].
    assert (Hsub : forall u,
               In u (timers (runAction (action t) (clearTimeout id st))) ->
               In u (timers st)).
    { intros u. destruct (action t); simpl; intros Hu;
        now apply filter_In in Hu. }
    assert (Hclock : clock (runAction (action t) (clearTimeout id st))
                     = clock st) by (destruct (action t); reflexivity).
    split; [exact Hsub|]. split; [lia|]. split.
    + intros id' [= <-]. exists t. rewrite Hclock.
      repeat split; auto.
      all: destruct (action t); simpl; congruence.
    + intros Hne. exfalso. now apply (Hne id).
Qed.

Lemma passive_run (v : Variant) (evs : list Event) :
  forall st st',
    forallb passive evs = true -> run v evs st = Some st' ->
    (forall t, In t (timers st') -> In t (timers st)) /\
    (clock st <= clock st')%Z /\
    (forall id, In (timeout id) evs ->
                exists t, In t (timers st) /\ timer_id t = id) /\
    (status st' = status st \/
     status st' = None /\
     exists t, In t (timers st) /\ action t = ClearStatus /\
               In (timeout (timer_id t)) evs /\ (due t <= clock st')%Z).
Proof.
  induction evs as [|ev evs IH]; simpl; intros st st' Hp Hrun.
  - injection Hrun as <-.
    split; [auto|]. split; [lia|]. split; [intros id []|now left].
  - apply andb_prop in Hp. destruct Hp as [Hp1 Hp2].
    destruct (step v ev st) as [st1|] eqn:Hs; [|discriminate].
    destruct (passive_step _ _ _ _ Hp1 Hs) as (Hsub1 & Hc1 & Hfire1 & Hstat1).
    destruct (IH _ _ Hp2 Hrun) as (Hsub & Hc & Hfire & Hstat).
    split; [auto|]. split; [lia|]. split.
    + intros id [->|Hin].
      * destruct (Hfire1 id eq_refl) as (t & Hin & Hid & _). eauto.
      * destruct (Hfire id Hin) as (t & Hin' & Hid). eauto.
    + destruct Hstat as [Hsame|(Hnone & t & Hin & Hact & Hfired & Hdue)].
      * destruct ev; try discriminate Hp1.
        -- left. rewrite Hsame. apply Hstat1. intros id' [=].
        -- destruct (Hfire1 id eq_refl) as (t & Hin & Hid & Hdue & Hclr & Hkeep).
           destruct (action t) eqn:Hact.
           ++ right. split; [rewrite Hsame; auto|].
              exists t. rewrite Hid. repeat split; auto. lia.
           ++ left. rewrite Hsame. apply Hkeep. discriminate.
      * right. split; [exact Hnone|]. exists t. repeat split; auto.
Qed.

(** C5.  Let notice A be on with its dismissal timer [a] pending, and let
    notice B be issued.  Then [a] is cancelled and a new timer [b], due one
    second later, is the dismissal the ref names; B is shown.  From there,
    while time passes and timers fire, [a] never fires, and B stays shown
    until [b] fires, at least one second after B was issued; and [b] does
    fire once a second has passed, clearing B. *)
Theorem showStatus_supersedes (v : Variant) (st : Editor) (a : TimerId)
    (msgB : string) (tyB : StatusType) :
  reachable v st ->
  statusTimeoutRef st = Some a ->
  pending a st ->
  let st' := showStatus msgB tyB st in
  let b := nextTimer st in
  let B := {| message := msgB; type := tyB |} in
  ~ pending a st' /\
  b <> a /\
  statusTimeoutRef st' = Some b /\
  findTimer b (timers st')
    = Some {| timer_id := b; due := (clock st + 1000)%Z; action := ClearStatus |} /\
  status st' = Some B /\
  (forall evs st'',
      forallb passive evs = true -> run v evs st' = Some st'' ->
      ~ In (timeout a) evs /\
      ~ pending a st'' /\
      (status st'' = Some B \/
       status st'' = None /\ In (timeout b) evs /\
       (clock st + 1000 <= clock st'')%Z)) /\
  (exists st'',
      run v [elapse 1000; timeout b] st' = Some st'' /\ status st'' = None).
Proof.
  intros Hreach Href Hpend st' b B.
  pose proof (inv_timers _ _ (reachable_invariant _ _ Hreach)) as Hok.
  pose proof Hok as [Hfresh Hreffresh Hone].
  assert (Hba : b <> a).
  { specialize (Hreffresh a Href). unfold b. lia. }
  assert (Htimers : timers st'
                    = filter (fun t => negb (Pos.eqb (timer_id t) a)) (timers st)
                      ++ [{| timer_id := b; due := (clock st + 1000)%Z;
                             action := ClearStatus |}]).
  { unfold st'. rewrite showStatus_timers. unfold uncancelled.
    now rewrite Href. }
  assert (Hgone : findTimer a (timers st') = None).
  { rewrite Htimers, findTimer_app, findTimer_cleared. simpl.
    destruct (Pos.eqb b a) eqn:E; [|reflexivity].
    apply Pos.eqb_eq in E. contradiction. }
  assert (Hnew : findTimer b (timers st')
                 = Some {| timer_id := b; due := (clock st + 1000)%Z;
                           action := ClearStatus |}).
  { rewrite Htimers, findTimer_app.
    rewrite findTimer_fresh.
    - simpl. now rewrite Pos.eqb_refl.
    - apply Forall_forall. intros t Ht. apply filter_In in Ht.
      rewrite Forall_forall in Hfresh. now apply Hfresh. }
  assert (Hdismissal : forall t, In t (timers st') -> action t = ClearStatus ->
                                 t = {| timer_id := b; due := (clock st + 1000)%Z;
                                        action := ClearStatus |}).
  { intros t Hin Hact. unfold st' in Hin. rewrite showStatus_timers in Hin.
    apply in_app_or in Hin. destruct Hin as [Hin|[<-|[]]]; [|reflexivity].
    exfalso. eapply uncancelled_no_dismissal; eauto. }
  split.
  { intros [t Ht]. rewrite Hgone in Ht. discriminate. }
  split; [exact Hba|].
  split; [apply showStatus_ref|].
  split; [exact Hnew|].
  split; [apply showStatus_status|].
  split.
  - intros evs st'' Hp Hrun.
    destruct (passive_run v evs _ _ Hp Hrun) as (Hsub & Hclock & Hfire & Hstat).
    split; [|split].
    + intros Hin. destruct (Hfire a Hin) as (t & Ht & Hid).
      now apply (findTimer_None_In a _ t Hgone Ht).
    + intros [t Ht]. apply findTimer_In in Ht. destruct Ht as [Ht Hid].
      now apply (findTimer_None_In a _ t Hgone (Hsub t Ht)).
    + destruct Hstat as [Hsame|(Hnone & t & Hin & Hact & Hfired & Hdue)].
      * left. rewrite Hsame. apply showStatus_status.
      * right. rewrite (Hdismissal t Hin Hact) in Hfired, Hdue.
        simpl in Hfired, Hdue. auto.
  - unfold run, step. cbn [clock set_clock].
    unfold fireTimer. cbn [timers set_clock]. rewrite Hnew.
    cbn [due action clock set_clock].
    replace (clock st' + Z.of_N 1000)%Z with (clock st + 1000)%Z.
    + rewrite Z.leb_refl. eexists. split; reflexivity.
    + unfold st'. destruct (showStatus_sameEditorState msgB tyB st)
        as (_ & _ & _ & _ & _ & _ & _ & _ & _ & _ & ->). reflexivity.
Qed.

Lemma showStatus_supersedes_witness :
  let st := handleBaseImageUpload (Some "text/plain"%string) (initial ElizaTape) in
  let st' := showStatus "Image loaded successfully" success st in
  status st = Some {| message := "Please select an image file"; type := error |} /\
  statusTimeoutRef st = Some 1%positive /\
  pending 1%positive st /\
  ~ pending 1%positive st' /\
  statusTimeoutRef st' = Some 2%positive /\
  run ElizaTape [elapse 1000; timeout 1%positive] st' = None /\
  option_map status (run ElizaTape [elapse 999; elapse 1; timeout 2%positive] st')
    = Some None.
Proof.
  intros st st'.
  assert (Hreach : reachable ElizaTape st).
  { apply (reachable_step ElizaTape (initial ElizaTape)
             (changeFile (Some "text/plain"%string)));
      [apply reachable_initial | reflexivity]. }
  assert (Href : statusTimeoutRef st = Some 1%positive) by reflexivity.
  assert (Hpend : pending 1%positive st) by (eexists; reflexivity).
  destruct (showStatus_supersedes ElizaTape st 1%positive
              "Image loaded successfully" success Hreach Href Hpend)
    as (Hgone & _ & Hb & _ & _ & _ & _).
  split; [reflexivity|]. split; [exact Href|]. split; [exact Hpend|].
  split; [exact Hgone|]. split; [exact Hb|].
  split; reflexivity.
Defined.

(** ** The order of the transformations in the export *)

(** The overlay part of the export makes the calls of [placementCalls]
    between [save] and the drawing of the hat. *)
Lemma drawOverlay_calls (v : Variant) (t : Transform) (hat : Asset)
    (canvas : Size) (scaleX scaleY : Q) (overlayRect : Rect) (natural : Size)
    (log : list Effect) :
  let overlayWidth := overlayFootprint v overlayRect * scaleX in
  let overlayHeight := overlayWidth * height natural / width natural in
  drawOverlay v t hat canvas scaleX scaleY overlayRect natural log =
  (Returned tt,
   log ++ map ctx
     ([ctx_save]
      ++ placementCalls t (width canvas / 2 + x (position t) * scaleX)
           (height canvas / 2 + y (position t) * scaleY)
      ++ [ctx_drawImage (hatImg hat) (- overlayWidth / 2)
            (- overlayHeight / 2) overlayWidth overlayHeight;
          ctx_restore])).
Proof.
  intros overlayWidth overlayHeight.
  unfold drawOverlay, placementCalls, bind, emit, when, ret.
  destruct (flipX t); cbn [map app]; rewrite <- !app_assoc; reflexivity.
Qed.

(** What a successful export does outside the component, in full. *)
Lemma handleSave_success (v : Variant) (dom : Dom) (captured : Asset)
    (st : Editor) (overlayRect containerRect : Rect) (natural : Size) :
  baseImage st <> EmptyString ->
  overlayRef_current dom = Some (Some overlayRect) ->
  containerRef_current dom = Some containerRect ->
  getContext_2d dom = true ->
  baseImg_onload dom = true ->
  hatImg_onload dom = Some natural ->
  let t := transform st in
  let canvas := originalImageSize st in
  let hat := closedOverHat v captured st in
  let scaleX := fst (displayToNative canvas containerRect) in
  let scaleY := snd (displayToNative canvas containerRect) in
  let overlayWidth := overlayFootprint v overlayRect * scaleX in
  let overlayHeight := overlayWidth * height natural / width natural in
  handleSave v dom captured st =
  (showStatus "Image saved successfully" success st,
   [createCanvas; getContext; loadImage (baseImg (baseImage st));
    setCanvasSize (width canvas) (height canvas);
    ctx (ctx_drawImage (baseImg (baseImage st)) 0 0 (width canvas) (height canvas));
    loadImage (hatImg hat)]
   ++ map ctx
        ([ctx_save]
         ++ placementCalls t (width canvas / 2 + x (position t) * scaleX)
              (height canvas / 2 + y (position t) * scaleY)
         ++ [ctx_drawImage (hatImg hat) (- overlayWidth / 2)
               (- overlayHeight / 2) overlayWidth overlayHeight;
             ctx_restore])
   ++ [download (exportFilename v)]).
Proof.
  intros Hbase Hov Hct Hctx Hbl Hhl t canvas hat scaleX scaleY
    overlayWidth overlayHeight.
  unfold handleSave. rewrite Hov, Hct.
  destruct (baseImage st) as [|c0 base'] eqn:Eb; [contradiction|].
  unfold exportBody. rewrite Hctx, Hbl, Hhl.
  unfold bind at 1 2 3 4 5 6 7 8 9.
  cbn [emit negb when ret await_onload app].
  unfold bind. rewrite drawOverlay_calls.
  cbn [emit app]. reflexivity.
Qed.

(** The transformation in force when the hat is drawn: the product, in this
    order, of the translation, the rotation, the mirror when flipped and
    the scaling.  Its linear part is the one of the preview's CSS list. *)
Lemma placement_matrix (cos sin : Q -> Q) (t : Transform) (tx ty : Q)
    (base hat : ImageSource) (bx b_y bw bh hx hy hw hh : Q) :
  (forall p, base <> hatImg p) -> (exists p, hat = hatImg p) ->
  exists m,
    hatPlacement
      (paint cos sin
         ([ctx_drawImage base bx b_y bw bh; ctx_save]
          ++ placementCalls t tx ty
          ++ [ctx_drawImage hat hx hy hw hh; ctx_restore])) = Some m /\
    m = fold_left affine_mul
          (map (fun c => match c with
                         | ctx_translate a b => translation_matrix a b
                         | ctx_rotate a => rotation_matrix cos sin a
                         | ctx_scale a b => scaling_matrix a b
                         | _ => affine_id
                         end) (placementCalls t tx ty))
          affine_id /\
    linear_eq m (styleMatrix cos sin (getOverlayStyle t)) /\
    me m == tx /\ mf m == ty.
Proof.
  intros Hbase [p ->].
  destruct base as [src|q]; [|exfalso; now apply (Hbase q)].
  unfold placementCalls.
  destruct (flipX t) eqn:Hflip;
    (eexists; split; [reflexivity|]; split; [reflexivity|]);
    unfold getOverlayStyle; rewrite Hflip;
    cbv [fold_left map app placementCalls styleMatrix cssMatrix affine_mul
         rotation_matrix scaling_matrix translation_matrix affine_id
         linear_eq ma mb mc md me mf canvasCall canvas_blank ctm saved drawn];
    repeat split; ring.
Qed.

(** C8.  When the export goes through, the calls on the 2D context are: the
    base image; [save]; translate to the image centre plus the position
    scaled to native resolution; rotate by the rotation in radians; the
    horizontal mirror, when flipped; the uniform scale by [transform.scale];
    the hat, drawn centred at the origin; [restore].  The preview lists
    translate, rotate, scale in the same order, with the mirror folded into
    the scale, and the transformation in force when the hat is drawn has
    the linear part of the preview's list and the translation above. *)
Theorem handleSave_transform_order (v : Variant) (dom : Dom) (captured : Asset)
    (st : Editor) (overlayRect containerRect : Rect) (natural : Size) :
  baseImage st <> EmptyString ->
  overlayRef_current dom = Some (Some overlayRect) ->
  containerRef_current dom = Some containerRect ->
  getContext_2d dom = true ->
  baseImg_onload dom = true ->
  hatImg_onload dom = Some natural ->
  let t := transform st in
  let canvas := originalImageSize st in
  let hat := closedOverHat v captured st in
  let scaleX := fst (displayToNative canvas containerRect) in
  let scaleY := snd (displayToNative canvas containerRect) in
  let tx := width canvas / 2 + x (position t) * scaleX in
  let ty := height canvas / 2 + y (position t) * scaleY in
  let overlayWidth := overlayFootprint v overlayRect * scaleX in
  let overlayHeight := overlayWidth * height natural / width natural in
  let calls := canvasCalls (snd (handleSave v dom captured st)) in
  calls =
    [ctx_drawImage (baseImg (baseImage st)) 0 0 (width canvas) (height canvas);
     ctx_save]
    ++ ([ctx_translate tx ty; ctx_rotate (rotation t * Math_PI / 180)]
        ++ (if flipX t then [ctx_scale (-1) 1] else [])
        ++ [ctx_scale (scale t) (scale t)])
    ++ [ctx_drawImage (hatImg hat) (- overlayWidth / 2) (- overlayHeight / 2)
          overlayWidth overlayHeight;
        ctx_restore] /\
  (- overlayWidth / 2 + overlayWidth / 2 == 0 /\
   - overlayHeight / 2 + overlayHeight / 2 == 0) /\
  getOverlayStyle t =
    [css_translate_percent (-50) (-50);
     css_translate_px (x (position t)) (y (position t));
     css_rotate_deg (rotation t);
     css_scale (scale t * (if flipX t then -1 else 1)) (scale t)] /\
  (forall cos sin : Q -> Q,
      exists m,
        hatPlacement (paint cos sin calls) = Some m /\
        m = fold_left affine_mul
              ([translation_matrix tx ty;
                rotation_matrix cos sin (rotation t * Math_PI / 180)]
               ++ (if flipX t then [scaling_matrix (-1) 1] else [])
               ++ [scaling_matrix (scale t) (scale t)])
              affine_id /\
        linear_eq m (styleMatrix cos sin (getOverlayStyle t)) /\
        me m == tx /\ mf m == ty).
Proof.
  intros Hbase Hov Hct Hctx Hbl Hhl t canvas hat scaleX scaleY tx ty
    overlayWidth overlayHeight calls.
  assert (Hcalls : calls =
    [ctx_drawImage (baseImg (baseImage st)) 0 0 (width canvas) (height canvas);
     ctx_save]
    ++ placementCalls t tx ty
    ++ [ctx_drawImage (hatImg hat) (- overlayWidth / 2) (- overlayHeight / 2)
          overlayWidth overlayHeight;
        ctx_restore]).
  { unfold calls.
    rewrite (handleSave_success v dom captured st overlayRect containerRect
               natural Hbase Hov Hct Hctx Hbl Hhl).
    cbn [snd]. unfold placementCalls. fold t canvas hat.
    destruct (flipX t); reflexivity. }
  split; [exact Hcalls|].
  split; [split; field|].
  split; [reflexivity|].
  intros cos sin. rewrite Hcalls.
  destruct (placement_matrix cos sin t tx ty (baseImg (baseImage st))
              (hatImg hat) 0 0 (width canvas) (height canvas)
              (- overlayWidth / 2) (- overlayHeight / 2) overlayWidth
              overlayHeight)
    as (m & Hm & Hprod & Hlin & He & Hf);
    [discriminate | eexists; reflexivity |].
  exists m. split; [exact Hm|]. split; [|auto].
  rewrite Hprod. unfold placementCalls.
  destruct (flipX t); reflexivity.
Qed.

(** The scenario of the specification: a 1000 x 2000 photo, the overlay
    dragged by (+50, -30), rotated right twice, scaled up once, exported
    from an 800 x 600 container. *)
Lemma handleSave_transform_order_witness :
  exists st,
    run ElizaTape
      [fileRead "data:image/png;base64,iVBORw0KGgo="; imageDecoded 1000 2000;
       onMouseDown {| clientX := 400; clientY := 300 |};
       onMouseMove {| clientX := 450; clientY := 270 |}; onMouseUp;
       clickRotate right; clickRotate right; clickScale up]
      (initial ElizaTape) = Some st /\
    transform st = {| position := {| x := 50; y := -30 |}; rotation := 30;
                      scale := 1.1; flipX := false |} /\
    canvasCalls
      (snd (handleSave ElizaTape
              {| overlayRef_current :=
                   Some (Some {| rect_width := 100; rect_height := 80 |});
                 containerRef_current :=
                   Some {| rect_width := 800; rect_height := 600 |};
                 getContext_2d := true; baseImg_onload := true;
                 hatImg_onload := Some {| width := 512; height := 400 |} |}
              rightImage st))
    = [ctx_drawImage (baseImg "data:image/png;base64,iVBORw0KGgo=") 0 0
         1000 2000;
       ctx_save;
       ctx_translate (800000000 # 1200000) (1080000 # 1200);
       ctx_rotate (26528391570106650 # 50665495807918080);
       ctx_scale 1.1 1.1;
       ctx_drawImage (hatImg rightImage) (-200000000 # 1200000)
         (-80000000000 # 614400000) (200000000 # 600000)
         (80000000000 # 307200000);
       ctx_restore].
Proof.
  eexists. split; [vm_compute; reflexivity|]. split; [reflexivity|].
  refine (proj1 (handleSave_transform_order ElizaTape _ rightImage _
                   {| rect_width := 100; rect_height := 80 |}
                   {| rect_width := 800; rect_height := 600 |}
                   {| width := 512; height := 400 |} _ _ _ _ _ _));
    first [discriminate | reflexivity].
Defined.

(** ** [flipX] is never set *)

(** Whatever the page looks like and however the export ends, a scaling
    call on the context is the mirror, made when [flipX] holds, or the
    uniform scale. *)
Lemma handleSave_scale_calls (v : Variant) (dom : Dom) (captured : Asset)
    (st : Editor) (sx sy : Q) :
  In (ctx (ctx_scale sx sy)) (snd (handleSave v dom captured st)) ->
  (flipX (transform st) = true /\ sx = -1 /\ sy = 1) \/
  (sx = scale (transform st) /\ sy = scale (transform st)).
Proof.
  unfold handleSave.
  destruct (baseImage st) as [|c0 base'];
    destruct dom as [[[overlayRect|]|] [containerRect|] gc bl [natural|]];
    cbn [overlayRef_current containerRef_current snd In]; try tauto.
  all: unfold exportBody;
    cbn [getContext_2d baseImg_onload hatImg_onload];
    destruct gc, bl;
    cbv [bind emit when ret throw await_onload negb app fst snd In];
    try rewrite drawOverlay_calls.
  all: try (intros H; repeat (destruct H as [H|H]; try discriminate H);
            contradiction).
  all: unfold placementCalls; destruct (flipX (transform st));
    cbn [map app In fst snd];
    intros H; repeat (destruct H as [H|H]; try discriminate H);
    try contradiction;
    injection H as <- <-; auto.
Qed.

(** C9.  In every reachable state of every copy [transform.flipX] is
    false.  The flip action leaves the transform alone and swaps the hat
    image.  So the export never makes the mirror call [ctx.scale(-1, 1)]:
    every scaling call it makes is the uniform, positive scale; and the
    x-scale of the preview is [scale * 1], positive. *)
Theorem flipX_never_set (v : Variant) (st : Editor) :
  reachable v st ->
  flipX (transform st) = false /\
  (transform (handleFlip v st) = transform st /\
   currentHatImage (handleFlip v st) <> currentHatImage st) /\
  (forall dom captured,
      ~ In (ctx (ctx_scale (-1) 1)) (snd (handleSave v dom captured st))) /\
  (forall dom captured sx sy,
      In (ctx (ctx_scale sx sy)) (snd (handleSave v dom captured st)) ->
      sx = scale (transform st) /\ sy = scale (transform st) /\ 0 < sx) /\
  getOverlayStyle (transform st) =
    [css_translate_percent (-50) (-50);
     css_translate_px (x (position (transform st))) (y (position (transform st)));
     css_rotate_deg (rotation (transform st));
     css_scale (scale (transform st) * 1) (scale (transform st))] /\
  0 < scale (transform st) * 1.
Proof.
  intros Hr. destruct (reachable_invariant _ _ Hr) as [Hflip Hscale _ Hhat _].
  split; [exact Hflip|]. split.
  { split.
    - destruct v; simpl; try destruct (isFlipped st); reflexivity.
    - clear Hflip Hscale Hr.
      destruct st as [? ? cur tp fl ? ? ? ? ? ? ? ? ? ?].
      destruct v; simpl in *.
      + destruct cur; discriminate.
      + subst cur. destruct fl, tp; discriminate.
      + subst cur. destruct fl; discriminate.
      + subst cur. destruct fl; discriminate.
      + subst cur. destruct hatColor0, fl, tp; discriminate. }
  split.
  { intros dom captured Hin.
    destruct (handleSave_scale_calls _ _ _ _ _ _ Hin) as [[H _]|[H1 H2]];
      congruence. }
  split.
  { intros dom captured sx sy Hin.
    destruct (handleSave_scale_calls _ _ _ _ _ _ Hin) as [[H _]|[-> ->]];
      [congruence|].
    repeat split. lra. }
  split.
  { unfold getOverlayStyle. now rewrite Hflip. }
  lra.
Qed.

Lemma flipX_never_set_witness :
  exists st,
    run ElizaColor
      [clickFlip; clickColor blue; clickTape; clickFlip; clickFlip;
       clickScale down; clickReset; clickFlip]
      (initial ElizaColor) = Some st /\
    isFlipped st = true /\
    currentHatImage st = blueLeftImage /\
    flipX (transform st) = false.
Proof.
  eexists. split; [reflexivity|]. split; [reflexivity|].
  split; [reflexivity|].
  refine (proj1 (flipX_never_set ElizaColor _ _)).
  apply (reachable_run ElizaColor
           [clickFlip; clickColor blue; clickTape; clickFlip; clickFlip;
            clickScale down; clickReset; clickFlip] (initial ElizaColor));
    [apply reachable_initial | reflexivity].
Defined.

(** * Further properties *)

(** ** The overlay variant selector *)

(** X1.  In every reachable state of every copy the hat on screen is the
    one the toggles of the state select. *)
Theorem reachable_hat_selected (v : Variant) (st : Editor) :
  reachable v st -> currentHatImage st = selectedHat v st.
Proof. intros Hr. exact (inv_hat _ _ (reachable_invariant _ _ Hr)). Qed.

Lemma reachable_hat_selected_witness :
  exists st,
    run ElizaTape [clickFlip; clickTape; clickReset; clickTape]
      (initial ElizaTape) = Some st /\
    isFlipped st = false /\ hasTape st = true /\
    currentHatImage st = rightTapeImage.
Proof.
  eexists. split; [reflexivity|]. split; [reflexivity|].
  split; [reflexivity|].
  refine (reachable_hat_selected ElizaTape _ _).
  apply (reachable_run ElizaTape [clickFlip; clickTape; clickReset; clickTape]
           (initial ElizaTape)); [apply reachable_initial | reflexivity].
Defined.

(** X2.  [getHatImage] sends different toggle settings to different
    assets. *)
Theorem getHatImage_injective (c c' : Color) (f f' t t' : bool) :
  getHatImage c f t = getHatImage c' f' t' -> c = c' /\ f = f' /\ t = t'.
Proof.
  destruct c, c', f, f', t, t'; simpl; intros H;
    first [discriminate H | repeat split; reflexivity].
Qed.

Lemma getHatImage_injective_witness :
  getHatImage blue true false = blueLeftImage /\
  (blue = blue /\ true = true /\ false = false).
Proof.
  split; [reflexivity|].
  apply (getHatImage_injective blue blue true true false false). reflexivity.
Defined.

(** X3.  From every reachable state of a copy with the duct-tape toggle,
    toggling the tape twice gives back the state, hat included. *)
Theorem handleTape_twice (v : Variant) (st st1 : Editor) :
  reachable v st ->
  handleTape v st = Some st1 ->
  handleTape v st1 = Some st /\
  hasTape st1 = negb (hasTape st) /\
  currentHatImage st1 <> currentHatImage st.
Proof.
  intros Hr Ht. pose proof (reachable_hat_selected v st Hr) as Hhat.
  clear Hr. destruct st as [? col cur tp fl ? ? ? ? ? ? ? ? ? ?].
  destruct v; simpl in *; try discriminate; injection Ht as <-; subst cur.
  - destruct fl, tp; simpl; repeat split; try reflexivity; discriminate.
  - destruct col, fl, tp; simpl; repeat split; try reflexivity; discriminate.
Qed.

Lemma handleTape_twice_witness :
  exists st st1,
    run ElizaColor [clickColor blue; clickFlip] (initial ElizaColor) = Some st /\
    handleTape ElizaColor st = Some st1 /\
    currentHatImage st1 = blueLeftTapeImage /\
    handleTape ElizaColor st1 = Some st.
Proof.
  eexists. eexists. split; [reflexivity|]. split; [reflexivity|].
  split; [reflexivity|].
  refine (proj1 (handleTape_twice ElizaColor _ _ _ _)); [|reflexivity].
  apply (reachable_run ElizaColor [clickColor blue; clickFlip]
           (initial ElizaColor)); [apply reachable_initial | reflexivity].
Defined.

(** X4.  The toggles commute, from any state: flip then tape is tape then
    flip, and a colour change commutes with both. *)
Theorem toggles_commute (v : Variant) (c : Color) (st : Editor) :
  handleTape v (handleFlip v st) = option_map (handleFlip v) (handleTape v st) /\
  handleColorChange v c (handleFlip v st)
    = option_map (handleFlip v) (handleColorChange v c st) /\
  andThen (handleTape v st) (handleColorChange v c)
    = andThen (handleColorChange v c st) (handleTape v).
Proof.
  destruct st as [? col cur tp fl ? ? ? ? ? ? ? ? ? ?].
  destruct v; simpl; repeat split; try reflexivity.
  all: destruct fl, tp; reflexivity.
Qed.

(** X5.  A colour change keeps the flip and tape toggles and the transform
    and shows the hat of the new colour with the same toggles; choosing the
    colour in use changes nothing in a reachable state, and so does choosing
    a colour and then the former one. *)
Theorem handleColorChange_keeps_toggles (c : Color) (st st1 : Editor) :
  reachable ElizaColor st ->
  handleColorChange ElizaColor c st = Some st1 ->
  isFlipped st1 = isFlipped st /\ hasTape st1 = hasTape st /\
  transform st1 = transform st /\
  currentHatImage st1 = getHatImage c (isFlipped st) (hasTape st) /\
  handleColorChange ElizaColor (hatColor st) st = Some st /\
  handleColorChange ElizaColor (hatColor st) st1 = Some st.
Proof.
  intros Hr Hc. pose proof (reachable_hat_selected _ st Hr) as Hhat.
  clear Hr. destruct st as [? col cur tp fl ? ? ? ? ? ? ? ? ? ?].
  simpl in *. injection Hc as <-. subst cur. simpl.
  repeat split; reflexivity.
Qed.

Lemma handleColorChange_keeps_toggles_witness :
  exists st st1,
    run ElizaColor [clickTape; clickFlip; clickRotate left]
      (initial ElizaColor) = Some st /\
    handleColorChange ElizaColor blue st = Some st1 /\
    currentHatImage st = orangeLeftTapeImage /\
    currentHatImage st1 = blueLeftTapeImage /\
    handleColorChange ElizaColor orange st1 = Some st.
Proof.
  eexists. eexists. split; [reflexivity|]. split; [reflexivity|].
  split; [reflexivity|]. split; [reflexivity|].
  match goal with
  | |- handleColorChange _ _ ?s1 = Some ?s =>
      assert (Hr : reachable ElizaColor s)
        by (apply (reachable_run ElizaColor
                     [clickTape; clickFlip; clickRotate left]
                     (initial ElizaColor));
            [apply reachable_initial | reflexivity]);
      exact (proj2 (proj2 (proj2 (proj2 (proj2
               (handleColorChange_keeps_toggles blue s s1 Hr eq_refl))))))
  end.
Defined.

(** ** Scale and rotation over all event sequences *)

(** X6.  Whatever the events were, in every reachable state the scale lies
    in [0.1, 7] and the rotation is a whole multiple of 15 degrees. *)
Theorem reachable_scale_rotation (v : Variant) (st : Editor) :
  reachable v st ->
  0.1 <= scale (transform st) <= 7 /\
  exists k : Z, rotation (transform st) = inject_Z (15 * k).
Proof.
  intros Hr. destruct (reachable_invariant _ _ Hr) as [_ Hs Hk _ _]. auto.
Qed.

Lemma reachable_scale_rotation_witness :
  exists st,
    run Sweetychat
      [clickRotate left; clickScale down; clickReset; clickRotate left;
       clickRotate left; clickRotate left; clickScale up]
      (initial Sweetychat) = Some st /\
    rotation (transform st) = -45 /\
    0.1 <= scale (transform st) <= 7.
Proof.
  eexists. split; [reflexivity|]. split; [reflexivity|].
  refine (proj1 (reachable_scale_rotation Sweetychat _ _)).
  apply (reachable_run Sweetychat
           [clickRotate left; clickScale down; clickReset; clickRotate left;
            clickRotate left; clickRotate left; clickScale up]
           (initial Sweetychat)); [apply reachable_initial | reflexivity].
Defined.

(** X7.  With the scale in [0.1, 7], scale-up never makes the overlay
    smaller and scale-down never makes it larger; at 7 scale-up changes
    nothing and at 0.1 scale-down changes nothing. *)
Theorem handleScale_monotone (st : Editor) :
  0.1 <= scale (transform st) <= 7 ->
  scale (transform st) <= scale (transform (handleScale up st)) /\
  scale (transform (handleScale down st)) <= scale (transform st) /\
  (scale (transform st) == 7 ->
   scale (transform (handleScale up st)) == 7) /\
  (scale (transform st) == 0.1 ->
   scale (transform (handleScale down st)) == 0.1).
Proof.
  intros [Hlo Hhi]. simpl. unfold Math_max, Math_min.
  set (s := scale (transform st)) in *.
  split; [|split; [|split]].
  - apply Q.max_le_iff. right. apply Q.min_glb; lra.
  - apply Q.max_lub; [lra|].
    apply Q.min_le_iff. right. lra.
  - intros H7. rewrite Q.min_l by lra. apply Q.max_r. lra.
  - intros H01. rewrite Q.min_r by lra. apply Q.max_l. lra.
Qed.

Lemma handleScale_monotone_witness :
  exists st,
    run Ai16z [clickScale up; clickScale up] (initial Ai16z) = Some st /\
    scale (transform st) = 1.21 /\
    scale (transform st) <= scale (transform (handleScale up st)).
Proof.
  eexists. split; [reflexivity|]. split; [reflexivity|].
  refine (proj1 (handleScale_monotone _ _)).
  vm_compute. split; discriminate.
Defined.

(** X8.  Scale-up and scale-down are not inverse: where neither is clamped,
    scale-up followed by scale-down leaves 0.99 of the scale, and so does
    scale-down followed by scale-up. *)
Theorem handleScale_up_down (st : Editor) :
  0.1 <= scale (transform st) * 0.9 ->
  scale (transform st) * 1.1 <= 7 ->
  scale (transform (handleScale down (handleScale up st)))
    == scale (transform st) * 0.99 /\
  scale (transform (handleScale up (handleScale down st)))
    == scale (transform st) * 0.99 /\
  scale (transform (handleScale down (handleScale up st)))
    < scale (transform st).
Proof.
  intros Hlo Hhi. simpl. unfold Math_max, Math_min.
  set (s := scale (transform st)) in *.
  assert (Hup : Qmax 0.1 (Qmin 7 (s * 1.1)) == s * 1.1).
  { rewrite Q.min_r by lra. apply Q.max_r. lra. }
  assert (Hdown : Qmax 0.1 (Qmin 7 (s * 0.9)) == s * 0.9).
  { rewrite Q.min_r by lra. apply Q.max_r. lra. }
  assert (H1 : Qmax 0.1 (Qmin 7 (Qmax 0.1 (Qmin 7 (s * 1.1)) * 0.9))
               == s * 0.99).
  { rewrite Hup. rewrite Q.min_r by lra. rewrite Q.max_r by lra. ring. }
  assert (H2 : Qmax 0.1 (Qmin 7 (Qmax 0.1 (Qmin 7 (s * 0.9)) * 1.1))
               == s * 0.99).
  { rewrite Hdown. rewrite Q.min_r by lra. rewrite Q.max_r by lra. ring. }
  split; [exact H1|]. split; [exact H2|]. rewrite H1. lra.
Qed.

Lemma handleScale_up_down_witness :
  scale (transform (handleScale down (handleScale up (initial Ai16z))))
    == 0.99 /\
  scale (transform (handleScale down (handleScale up (initial Ai16z))))
    < scale (transform (initial Ai16z)).
Proof.
  destruct (handleScale_up_down (initial Ai16z)) as (H1 & _ & H3);
    [vm_compute; discriminate | vm_compute; discriminate |].
  split; [|exact H3]. rewrite H1. reflexivity.
Defined.

(** ** Pointer handling *)

(** X9.  A drag moves the overlay by the displacement of the pointer: the
    position after the drag is the position before plus the last contact
    point minus the contact point of the drag-start, as numbers. *)
Theorem drag_displacement (v : Variant) (s : DragStart) (moves : list DragMove)
    (e : DragEnd) (st : Editor) (c : Pointer) :
  lastContact None moves = Some c ->
  exists st',
    run v (dragEvents s moves e) st = Some st' /\
    x (position (transform st'))
      == x (position (transform st)) + (clientX c - clientX (startContact s)) /\
    y (position (transform st'))
      == y (position (transform st)) + (clientY c - clientY (startContact s)).
Proof.
  intros Hlast.
  set (offset := grabOffset (startContact s) (position (transform st))).
  set (st0 := set_dragStart offset (set_isDragging true st)).
  assert (Hstart : step v (startEvent s) st = Some st0)
    by (destruct s; reflexivity).
  destruct (run_moves v moves st0 None (position (transform st)))
    as (st1 & Hrun & _ & _ & Hp1); [reflexivity | reflexivity |].
  exists (set_isDragging false st1). split.
  - unfold dragEvents. simpl run. rewrite Hstart, run_app, Hrun.
    destruct e; reflexivity.
  - cbn [transform set_isDragging]. rewrite Hp1, Hlast.
    unfold dragPosition, tracked, st0, offset, grabOffset.
    cbn [dragStart set_dragStart x y]. split; ring.
Qed.

Lemma drag_displacement_witness :
  exists st',
    run ElizaTape
      (dragEvents (touchStart {| clientX := 200; clientY := 150 |})
         [touchMove [{| clientX := 210; clientY := 140 |}];
          touchMove [{| clientX := 250; clientY := 120 |}]]
         touchEnd)
      (initial ElizaTape) = Some st' /\
    x (position (transform st')) == 50 /\
    y (position (transform st')) == -30.
Proof.
  destruct (drag_displacement ElizaTape
              (touchStart {| clientX := 200; clientY := 150 |})
              [touchMove [{| clientX := 210; clientY := 140 |}];
               touchMove [{| clientX := 250; clientY := 120 |}]]
              touchEnd (initial ElizaTape)
              {| clientX := 250; clientY := 120 |} eq_refl)
    as (st' & Hrun & Hx & Hy).
  exists st'. split; [exact Hrun|].
  split; [rewrite Hx | rewrite Hy]; reflexivity.
Defined.

(** X10.  A touch move and a touch end reach [handleTouchMove] and
    [handleTouchEnd] twice, once on the overlay and once, bubbling, on the
    container; the second run changes nothing. *)
Theorem touch_handlers_idempotent (touches : list Pointer) (st : Editor) :
  handleTouchMove touches (handleTouchMove touches st)
    = handleTouchMove touches st /\
  handleTouchEnd (handleTouchEnd st) = handleTouchEnd st.
Proof.
  split; [|reflexivity].
  unfold handleTouchMove.
  destruct (isDragging st) eqn:Hd, touches as [|touch [|]];
    cbn [isDragging setTransform]; rewrite ?Hd; reflexivity.
Qed.

(** X11.  Reset ends no drag: it leaves the dragging flag and the grab
    offset alone, so while a drag is on the next move puts the overlay
    back under the pointer, as if reset had not been pressed; the rest of
    the reset (rotation, scale, hat) stays. *)
Theorem handleReset_during_drag (v : Variant) (e : Pointer) (st : Editor) :
  isDragging st = true ->
  isDragging (handleReset v st) = true /\
  dragStart (handleReset v st) = dragStart st /\
  position (transform (handleMouseMove e (handleReset v st)))
    = position (transform (handleMouseMove e st)) /\
  rotation (transform (handleMouseMove e (handleReset v st))) = 0 /\
  scale (transform (handleMouseMove e (handleReset v st))) = 1.
Proof.
  intros Hd.
  assert (H1 : isDragging (handleReset v st) = true)
    by (destruct v; exact Hd).
  assert (H2 : dragStart (handleReset v st) = dragStart st)
    by (destruct v; reflexivity).
  split; [exact H1|]. split; [exact H2|].
  unfold handleMouseMove. rewrite H1, Hd, H2.
  destruct v; repeat split; reflexivity.
Qed.

Lemma handleReset_during_drag_witness :
  exists st,
    run Sweetychat
      [onTouchStart [{| clientX := 10; clientY := 10 |}];
       onTouchMove [{| clientX := 40; clientY := 10 |}]; clickRotate right]
      (initial Sweetychat) = Some st /\
    position (transform (handleReset Sweetychat st)) = {| x := 0; y := 0 |} /\
    position (transform
                (handleMouseMove {| clientX := 40; clientY := 10 |}
                   (handleReset Sweetychat st)))
      = position (transform st).
Proof.
  eexists. split; [reflexivity|]. split; [reflexivity|].
  refine (proj1 (proj2 (proj2
            (handleReset_during_drag Sweetychat
               {| clientX := 40; clientY := 10 |} _ _)))).
  reflexivity.
Defined.

(** ** Upload *)

(** X12.  A chosen file whose media type does not start with [image/] is
    refused: the error notice is shown and everything else, the base image
    included, stays; the empty type and [IMAGE/PNG] are refused too. *)
Theorem handleBaseImageUpload_refuses (ty : string) (st : Editor) :
  String.prefix "image/" ty = false ->
  status (handleBaseImageUpload (Some ty) st)
    = Some {| message := "Please select an image file"; type := error |} /\
  sameEditorState st (handleBaseImageUpload (Some ty) st) /\
  String.prefix "image/" EmptyString = false /\
  String.prefix "image/" "IMAGE/PNG" = false.
Proof.
  intros Hp. unfold handleBaseImageUpload. rewrite Hp. cbn [negb].
  split; [apply showStatus_status|].
  split; [apply showStatus_sameEditorState|]. split; reflexivity.
Qed.

Lemma handleBaseImageUpload_refuses_witness :
  baseImage (handleBaseImageUpload (Some "application/pdf"%string)
               (reader_onload "data:image/png;base64,AAAA" (initial Ai16z)))
  = "data:image/png;base64,AAAA"%string.
Proof.
  apply (proj1 (proj2 (handleBaseImageUpload_refuses "application/pdf"
                         (reader_onload "data:image/png;base64,AAAA"
                            (initial Ai16z)) eq_refl))).
Defined.

(** X13.  An upload that goes through (the type is accepted, the file is
    read, the image is decoded) replaces the base image and its size and
    shows the success notice; it leaves the transform, the overlay variant
    and the drag where they are: a new photo does not reset the overlay. *)
Theorem upload_keeps_overlay (v : Variant) (ty dataUrl : string) (w h : Q)
    (st : Editor) :
  String.prefix "image/" ty = true ->
  exists st',
    run v [changeFile (Some ty); fileRead dataUrl; imageDecoded w h] st
      = Some st' /\
    baseImage st' = dataUrl /\
    originalImageSize st' = {| width := w; height := h |} /\
    status st'
      = Some {| message := "Image loaded successfully"; type := success |} /\
    transform st' = transform st /\
    overlayVariant st' = overlayVariant st /\
    isDragging st' = isDragging st /\
    dragStart st' = dragStart st.
Proof.
  intros Hp. exists (img_onload w h (reader_onload dataUrl st)). split.
  - simpl. unfold handleBaseImageUpload. rewrite Hp. reflexivity.
  - unfold img_onload.
    destruct (showStatus_sameEditorState "Image loaded successfully" success
                (setOriginalImageSize {| width := w; height := h |}
                   (reader_onload dataUrl st)))
      as (Hb & _ & _ & _ & _ & Ht & Hs & _ & Hd & Ho & _).
    rewrite Hb, Ht, Hs, Hd, Ho, showStatus_status, showStatus_overlayVariant.
    repeat split; reflexivity.
Qed.

Lemma upload_keeps_overlay_witness :
  exists st st',
    run ElizaTape [clickFlip; clickRotate right; clickScale up]
      (initial ElizaTape) = Some st /\
    run ElizaTape
      [changeFile (Some "image/jpeg"%string);
       fileRead "data:image/jpeg;base64,AAAA"; imageDecoded 640 480] st
      = Some st' /\
    currentHatImage st' = leftImage /\
    rotation (transform st') = 15.
Proof.
  eexists.
  destruct (upload_keeps_overlay ElizaTape "image/jpeg"
              "data:image/jpeg;base64,AAAA" 640 480
              (handleScale up (handleRotate right
                 (handleFlip ElizaTape (initial ElizaTape)))) eq_refl)
    as (st' & Hrun & _ & _ & _ & Ht & Hov & _).
  exists st'. split; [reflexivity|]. split; [exact Hrun|].
  split.
  - change (asset (overlayVariant st') = leftImage). rewrite Hov. reflexivity.
  - rewrite Ht. reflexivity.
Defined.

(** ** The ways an export ends *)

(** The effects of an export up to the drawing of the base image. *)
Lemma handleSave_cases (v : Variant) (dom : Dom) (captured : Asset)
    (st : Editor) :
  let base := baseImg (baseImage st) in
  let size := originalImageSize st in
  let drawBase :=
    [createCanvas; getContext; loadImage base;
     setCanvasSize (width size) (height size);
     ctx (ctx_drawImage base 0 0 (width size) (height size))] in
  let r := handleSave v dom captured st in
  (* the guard *)
  ((baseImage st = EmptyString \/ overlayRef_current dom = None
    \/ containerRef_current dom = None) /\
   r = (showStatus "Please upload an image first" error st, [])) \/
  (* no 2D context *)
  (getContext_2d dom = false /\
   r = (showStatus "Error saving image" error st,
        [createCanvas; getContext; console_error])) \/
  (* the base image never loads *)
  (baseImg_onload dom = false /\
   r = (st, [createCanvas; getContext; loadImage base])) \/
  (* the hat never loads *)
  (hatImg_onload dom = None /\
   r = (st, drawBase ++ [loadImage (hatImg (closedOverHat v captured st))])) \/
  (* no image inside the overlay *)
  (overlayRef_current dom = Some None /\
   r = (showStatus "Image saved successfully" success st,
        drawBase ++ [download (exportFilename v)])) \/
  (* the full export *)
  (exists overlayRect containerRect natural tx ty dx dy dw dh,
      overlayRef_current dom = Some (Some overlayRect) /\
      containerRef_current dom = Some containerRect /\
      hatImg_onload dom = Some natural /\
      r = (showStatus "Image saved successfully" success st,
           drawBase
           ++ [loadImage (hatImg (closedOverHat v captured st))]
           ++ map ctx
                ([ctx_save] ++ placementCalls (transform st) tx ty
                 ++ [ctx_drawImage (hatImg (closedOverHat v captured st))
                       dx dy dw dh;
                     ctx_restore])
           ++ [download (exportFilename v)])).
Proof.
  intros base size drawBase r. unfold r, handleSave.
  destruct (baseImage st) as [|c0 base'] eqn:Eb;
    [left; split; [auto | destruct (overlayRef_current dom),
                            (containerRef_current dom); reflexivity]|].
  destruct (overlayRef_current dom) as [overlayImg|] eqn:Eo;
    [|left; split; [auto | reflexivity]].
  destruct (containerRef_current dom) as [containerRect|] eqn:Ec;
    [|left; split; [auto | reflexivity]].
  right. unfold exportBody.
  destruct (getContext_2d dom) eqn:Eg; [|left; split; reflexivity].
  right.
  destruct (baseImg_onload dom) eqn:El; [|left; split; reflexivity].
  right.
  destruct overlayImg as [overlayRect|];
    [|right; left; split; reflexivity].
  destruct (hatImg_onload dom) as [natural|] eqn:Eh;
    [|left; split; reflexivity].
  right. right.
  exists overlayRect, containerRect, natural.
  unfold bind at 1 2 3 4 5 6 7 8 9.
  cbn [emit negb when ret await_onload app].
  unfold bind. rewrite drawOverlay_calls.
  cbn [emit app]. do 6 eexists. repeat split; reflexivity.
Qed.

(** X14.  An export downloads at most once, as its last act, under the file
    name of the copy, after it drew the base image over the whole canvas,
    and only when it ends with the success notice: no download follows an
    error or a wait that never ends. *)
Theorem handleSave_download (v : Variant) (dom : Dom) (captured : Asset)
    (st : Editor) (f : string) :
  In (download f) (snd (handleSave v dom captured st)) ->
  f = exportFilename v /\
  fst (handleSave v dom captured st)
    = showStatus "Image saved successfully" success st /\
  exists before,
    snd (handleSave v dom captured st) = before ++ [download f] /\
    existsb isDownload before = false /\
    In (ctx (ctx_drawImage (baseImg (baseImage st)) 0 0
               (width (originalImageSize st)) (height (originalImageSize st))))
       before /\
    In (setCanvasSize (width (originalImageSize st))
          (height (originalImageSize st))) before.
Proof.
  intros Hin.
  destruct (handleSave_cases v dom captured st)
    as [[_ Hr]|[[_ Hr]|[[_ Hr]|[[_ Hr]|[[_ Hr]|Hr]]]]].
  1-4: rewrite Hr in Hin; cbn [snd app In] in Hin;
    repeat (destruct Hin as [Hin|Hin]; try discriminate Hin); contradiction.
  - rewrite Hr in *. cbn [fst snd] in *.
    apply in_app_or in Hin. destruct Hin as [Hin|[Hin|[]]].
    { cbn [In] in Hin.
      repeat (destruct Hin as [Hin|Hin]; try discriminate Hin);
        contradiction. }
    injection Hin as <-. split; [reflexivity|]. split; [reflexivity|].
    eexists. split; [reflexivity|]. simpl. auto 10.
  - destruct Hr as (overlayRect & containerRect & natural & tx & ty & dx & dy
                    & dw & dh & _ & _ & _ & Hr).
    rewrite Hr in *. cbn [fst snd] in *.
    rewrite !app_assoc in Hin |- *.
    apply in_app_or in Hin. destruct Hin as [Hin|[Hin|[]]].
    { exfalso. rewrite <- !app_assoc in Hin.
      unfold placementCalls in Hin. destruct (flipX (transform st));
        cbn [map app In] in Hin;
        repeat (destruct Hin as [Hin|Hin]; try discriminate Hin);
        contradiction. }
    injection Hin as <-. split; [reflexivity|]. split; [reflexivity|].
    eexists. split; [reflexivity|].
    unfold placementCalls. destruct (flipX (transform st)); simpl; auto 10.
Qed.

Lemma handleSave_download_witness :
  exists st,
    run Sweetychat
      [fileRead "data:image/png;base64,AAAA"; imageDecoded 400 400]
      (initial Sweetychat) = Some st /\
    In (download "sweetychat-hat.png")
       (snd (handleSave Sweetychat
               {| overlayRef_current :=
                    Some (Some {| rect_width := 400; rect_height := 300 |});
                  containerRef_current :=
                    Some {| rect_width := 400; rect_height := 400 |};
                  getContext_2d := true; baseImg_onload := true;
                  hatImg_onload := Some {| width := 800; height := 600 |} |}
               rightImage st)) /\
    status (fst (handleSave Sweetychat
               {| overlayRef_current :=
                    Some (Some {| rect_width := 400; rect_height := 300 |});
                  containerRef_current :=
                    Some {| rect_width := 400; rect_height := 400 |};
                  getContext_2d := true; baseImg_onload := true;
                  hatImg_onload := Some {| width := 800; height := 600 |} |}
               rightImage st))
      = Some {| message := "Image saved successfully"; type := success |}.
Proof.
  eexists. split; [reflexivity|].
  match goal with
  | |- In (download ?f) (snd (handleSave ?v ?dom ?c ?st)) /\ _ =>
      assert (Hin : In (download f) (snd (handleSave v dom c st)))
        by (vm_compute; auto 20);
      split; [exact Hin|];
      rewrite (proj1 (proj2 (handleSave_download v dom c st f Hin)))
  end.
  apply showStatus_status.
Defined.

(** X15.  When the guard lets the export through and the canvas gives no
    2D context, the export throws before it loads or draws anything: the
    error is logged, the notice "Error saving image" is shown, and nothing
    is downloaded. *)
Theorem handleSave_no_context (v : Variant) (dom : Dom) (captured : Asset)
    (st : Editor) (overlayImg : option Rect) (containerRect : Rect) :
  baseImage st <> EmptyString ->
  overlayRef_current dom = Some overlayImg ->
  containerRef_current dom = Some containerRect ->
  getContext_2d dom = false ->
  handleSave v dom captured st
  = (showStatus "Error saving image" error st,
     [createCanvas; getContext; console_error]) /\
  status (fst (handleSave v dom captured st))
    = Some {| message := "Error saving image"; type := error |}.
Proof.
  intros Hb Ho Hc Hg.
  assert (H : handleSave v dom captured st
              = (showStatus "Error saving image" error st,
                 [createCanvas; getContext; console_error])).
  { unfold handleSave. rewrite Ho, Hc.
    destruct (baseImage st); [contradiction|].
    unfold exportBody. rewrite Hg. reflexivity. }
  split; [exact H|]. rewrite H. apply showStatus_status.
Qed.

Lemma handleSave_no_context_witness :
  snd (handleSave Ai16z
         {| overlayRef_current :=
              Some (Some {| rect_width := 100; rect_height := 80 |});
            containerRef_current :=
              Some {| rect_width := 800; rect_height := 600 |};
            getContext_2d := false; baseImg_onload := true;
            hatImg_onload := Some {| width := 512; height := 400 |} |}
         rightImage
         (reader_onload "data:image/png;base64,AAAA" (initial Ai16z)))
  = [createCanvas; getContext; console_error].
Proof.
  refine (f_equal snd (proj1 (handleSave_no_context Ai16z _ rightImage _
                                _ _ _ _ _ _)));
    first [discriminate | reflexivity].
Defined.

(** X16.  The export waits for the [load] event of the base image and of
    the hat and listens to nothing else: when one of them never fires, the
    export never ends.  No notice is shown, no error is logged, nothing is
    downloaded, and the state is the one before. *)
Theorem handleSave_never_loads (v : Variant) (dom : Dom) (captured : Asset)
    (st : Editor) (overlayRect containerRect : Rect) :
  baseImage st <> EmptyString ->
  overlayRef_current dom = Some (Some overlayRect) ->
  containerRef_current dom = Some containerRect ->
  getContext_2d dom = true ->
  baseImg_onload dom = false \/ hatImg_onload dom = None ->
  fst (handleSave v dom captured st) = st /\
  existsb isDownload (snd (handleSave v dom captured st)) = false /\
  ~ In console_error (snd (handleSave v dom captured st)) /\
  hatsDrawn (snd (handleSave v dom captured st)) = [].
Proof.
  intros Hb Ho Hc Hg Hload. unfold handleSave. rewrite Ho, Hc.
  destruct (baseImage st) as [|c0 base']; [contradiction|].
  unfold exportBody. rewrite Hg.
  destruct (baseImg_onload dom) eqn:El.
  - destruct Hload as [Hload|Hload]; [discriminate|]. rewrite Hload.
    cbv [bind emit when ret throw await_onload negb app fst snd
         existsb isDownload orb hatsDrawn flat_map In].
    repeat split; try reflexivity.
    intros H; repeat (destruct H as [H|H]; try discriminate H); contradiction.
  - cbv [bind emit when ret throw await_onload negb app fst snd
         existsb isDownload orb hatsDrawn flat_map In].
    repeat split; try reflexivity.
    intros H; repeat (destruct H as [H|H]; try discriminate H); contradiction.
Qed.

Lemma handleSave_never_loads_witness :
  exists st,
    run ElizaColor [fileRead "data:image/png;base64,AAAA"; clickFlip]
      (initial ElizaColor) = Some st /\
    fst (handleSave ElizaColor
           {| overlayRef_current :=
                Some (Some {| rect_width := 400; rect_height := 300 |});
              containerRef_current :=
                Some {| rect_width := 800; rect_height := 600 |};
              getContext_2d := true; baseImg_onload := true;
              hatImg_onload := None |}
           orangeLeftImage st) = st.
Proof.
  eexists. split; [reflexivity|].
  refine (proj1 (handleSave_never_loads ElizaColor _ orangeLeftImage _
                   {| rect_width := 400; rect_height := 300 |}
                   {| rect_width := 800; rect_height := 600 |} _ _ _ _ _));
    first [discriminate | reflexivity | right; reflexivity].
Defined.

(** X17.  However an export ends, it leaves the editing state alone: the
    base image, the transform, the overlay variant, the drag and the clock
    are the ones before; only the notice and its timer may change. *)
Theorem handleSave_keeps_state (v : Variant) (dom : Dom) (captured : Asset)
    (st : Editor) :
  sameEditorState st (fst (handleSave v dom captured st)).
Proof.
  destruct (handleSave_state v dom captured st) as [->|(msg & ty & ->)].
  - unfold sameEditorState. repeat split; reflexivity.
  - apply showStatus_sameEditorState.
Qed.

(** X18.  However an export ends, every [save] of the context has its
    [restore], and the hat is drawn between the two: the transformation of
    the context is the identity again at the end, with nothing left on its
    stack. *)
Theorem handleSave_restores_context (v : Variant) (dom : Dom)
    (captured : Asset) (st : Editor) (cos sin : Q -> Q) :
  let effects := snd (handleSave v dom captured st) in
  countCalls ctx_save effects = countCalls ctx_restore effects /\
  (countCalls ctx_save effects <= 1)%nat /\
  List.length (hatsDrawn effects) = countCalls ctx_save effects /\
  ctm (paint cos sin (canvasCalls effects)) = affine_id /\
  saved (paint cos sin (canvasCalls effects)) = [].
Proof.
  intros effects. unfold effects.
  destruct (handleSave_cases v dom captured st)
    as [[_ Hr]|[[_ Hr]|[[_ Hr]|[[_ Hr]|[[_ Hr]|Hr]]]]].
  1-5: rewrite Hr; cbn; repeat split; auto.
  destruct Hr as (overlayRect & containerRect & natural & tx & ty & dx & dy
                  & dw & dh & _ & _ & _ & Hr).
  rewrite Hr. unfold placementCalls.
  destruct (flipX (transform st)); cbn; repeat split; auto.
Qed.

(** ** The fit of the base image in the container *)

(** X19.  For an image and a container of positive sizes, the export takes
    the image to be shown as large as fits in the container with its aspect
    kept: the displayed width and height, the native ones divided by
    [scaleX] and [scaleY], do not exceed the container's, one of them fills
    it, and the two scale factors are the same positive number. *)
Theorem displayToNative_contain (canvas : Size) (containerRect : Rect) :
  0 < width canvas -> 0 < height canvas ->
  0 < rect_width containerRect -> 0 < rect_height containerRect ->
  let scaleX := fst (displayToNative canvas containerRect) in
  let scaleY := snd (displayToNative canvas containerRect) in
  scaleX == scaleY /\ 0 < scaleX /\
  width canvas / scaleX <= rect_width containerRect /\
  height canvas / scaleY <= rect_height containerRect /\
  (width canvas / scaleX == rect_width containerRect \/
   height canvas / scaleY == rect_height containerRect).
Proof.
  destruct canvas as [w h], containerRect as [cw ch].
  unfold displayToNative, Q_gtb. cbn [width height rect_width rect_height fst snd].
  intros Hw Hh Hcw Hch.
  assert (Hwn : ~ w == 0) by lra. assert (Hhn : ~ h == 0) by lra.
  assert (Hcwn : ~ cw == 0) by lra. assert (Hchn : ~ ch == 0) by lra.
  assert (Hcross : cw / ch <= w / h <-> cw * h <= w * ch).
  { setoid_replace (cw / ch) with (cw * h * / (ch * h)) by (field; auto).
    setoid_replace (w / h) with (w * ch * / (ch * h)) by (field; auto).
    split; intros H.
    - apply (Qmult_le_r _ _ (/ (ch * h))); [apply Qinv_lt_0_compat; nra|exact H].
    - apply Qmult_le_compat_r; [exact H|]. apply Qlt_le_weak, Qinv_lt_0_compat. nra. }
  destruct (Qle_bool (cw / ch) (w / h)) eqn:E; cbn [negb fst snd].
  - apply Qle_bool_iff, Hcross in E.
    assert (H1 : w / (w / cw) == cw) by (field; auto).
    assert (H2 : h / (h / (cw / (w / h))) == cw * h / w) by (field; auto).
    split; [field; auto|]. split; [apply Qlt_shift_div_l; lra|].
    rewrite H1, H2. split; [lra|]. split; [|left; reflexivity].
    apply Qle_shift_div_r; lra.
  - assert (E' : ~ cw / ch <= w / h).
    { intros H. apply Qle_bool_iff in H. congruence. }
    rewrite Hcross in E'.
    assert (H1 : w / (w / (ch * (w / h))) == ch * w / h) by (field; auto).
    assert (H2 : h / (h / ch) == ch) by (field; auto).
    split; [field; auto|]. split.
    + apply Qlt_shift_div_l; [|lra].
      setoid_replace (ch * (w / h)) with (ch * w / h) by (field; auto).
      apply Qlt_shift_div_l; nra.
    + rewrite H1, H2. split; [|split; [lra|right; reflexivity]].
      apply Qle_shift_div_r; lra.
Qed.

Lemma displayToNative_contain_witness :
  fst (displayToNative {| width := 1000; height := 2000 |}
         {| rect_width := 800; rect_height := 600 |})
  == snd (displayToNative {| width := 1000; height := 2000 |}
            {| rect_width := 800; rect_height := 600 |}) /\
  fst (displayToNative {| width := 1000; height := 2000 |}
         {| rect_width := 800; rect_height := 600 |}) == 10 / 3.
Proof.
  split; [|vm_compute; reflexivity].
  apply (displayToNative_contain {| width := 1000; height := 2000 |}
           {| rect_width := 800; rect_height := 600 |});
    vm_compute; reflexivity.
Defined.

(** ** The notice and its timer *)

Lemma armed_same (st st' : Editor) :
  status st' = status st -> statusTimeoutRef st' = statusTimeoutRef st ->
  timers st' = timers st -> clock st' = clock st ->
  (forall s, status st = Some s ->
     exists id t, statusTimeoutRef st = Some id /\
                  findTimer id (timers st) = Some t /\
                  action t = ClearStatus /\ (due t <= clock st + 1000)%Z) ->
  (forall s, status st' = Some s ->
     exists id t, statusTimeoutRef st' = Some id /\
                  findTimer id (timers st') = Some t /\
                  action t = ClearStatus /\ (due t <= clock st' + 1000)%Z).
Proof. intros -> -> -> ->. auto. Qed.

Lemma armed_showStatus (msg : string) (ty : StatusType) (st : Editor) :
  timers_ok st ->
  forall s, status (showStatus msg ty st) = Some s ->
    exists id t, statusTimeoutRef (showStatus msg ty st) = Some id /\
                 findTimer id (timers (showStatus msg ty st)) = Some t /\
                 action t = ClearStatus /\
                 (due t <= clock (showStatus msg ty st) + 1000)%Z.
Proof.
  intros [Hfresh _ _] s _.
  exists (nextTimer st),
    {| timer_id := nextTimer st; due := (clock st + 1000)%Z;
       action := ClearStatus |}.
  split; [apply showStatus_ref|]. split.
  - rewrite showStatus_timers, findTimer_app, findTimer_fresh.
    + simpl. now rewrite Pos.eqb_refl.
    + apply Forall_forall. intros t Ht. apply uncancelled_incl in Ht.
      rewrite Forall_forall in Hfresh. now apply Hfresh.
  - split; [reflexivity|]. cbn [due].
    destruct (showStatus_sameEditorState msg ty st)
      as (_ & _ & _ & _ & _ & _ & _ & _ & _ & _ & ->). lia.
Qed.

Lemma armed_step (v : Variant) (ev : Event) (st st' : Editor) :
  timers_ok st ->
  (forall s, status st = Some s ->
     exists id t, statusTimeoutRef st = Some id /\
                  findTimer id (timers st) = Some t /\
                  action t = ClearStatus /\ (due t <= clock st + 1000)%Z) ->
  step v ev st = Some st' ->
  (forall s, status st' = Some s ->
     exists id t, statusTimeoutRef st' = Some id /\
                  findTimer id (timers st') = Some t /\
                  action t = ClearStatus /\ (due t <= clock st' + 1000)%Z).
Proof.
  intros Hok Harmed.
  destruct ev; simpl; intros Hs;
    try (injection Hs as <-);
    try (apply (armed_same st); [reflexivity..|exact Harmed]).
  - unfold handleTouchStart. destruct touches as [|? [|]]; exact Harmed.
  - unfold handleTouchMove.
    destruct (isDragging st), touches as [|? [|]]; exact Harmed.
  - unfold handleMouseMove. destruct (isDragging st); exact Harmed.
  - destruct v; simpl; try (destruct (isFlipped st));
      (apply (armed_same st); [reflexivity..|exact Harmed]).
  - destruct v; simpl in Hs; try discriminate; injection Hs as <-;
      try (destruct (isFlipped st));
      (apply (armed_same st); [reflexivity..|exact Harmed]).
  - destruct v; simpl in Hs; try discriminate; injection Hs as <-.
    apply (armed_same st); [reflexivity..|exact Harmed].
  - destruct v; (apply (armed_same st); [reflexivity..|exact Harmed]).
  - destruct (handleSave_state v dom captured st) as [->|(msg & ty & ->)];
      [exact Harmed | now apply armed_showStatus].
  - destruct v; simpl in Hs; try discriminate; injection Hs as <-.
    intros s Hstat. destruct (Harmed s Hstat) as (id & t & Hr & Hf & Ha & Hd).
    exists id, t. simpl. rewrite findTimer_app, Hf. auto.
  - destruct v; try discriminate.
    destruct (showModal st); [|discriminate]. injection Hs as <-.
    apply (armed_same st); [reflexivity..|exact Harmed].
  - unfold handleBaseImageUpload. destruct fileType as [ty|]; [|exact Harmed].
    destruct (negb (String.prefix "image/" ty));
      [now apply armed_showStatus | exact Harmed].
  - unfold img_onload. apply armed_showStatus.
    eapply timers_ok_same; [| | |exact Hok]; reflexivity.
  - intros s Hstat. destruct (Harmed s Hstat) as (id & t & Hr & Hf & Ha & Hd).
    exists id, t. simpl. repeat split; auto. lia.
  - apply fireTimer_inv in Hs. destruct Hs as (t0 & Hf0 & _ & ->).
    intros s Hstat. destruct (action t0) eqn:Ha0; [discriminate Hstat|].
    destruct (Harmed s Hstat) as (id1 & t1 & Hr & Hf & Ha & Hd).
    exists id1, t1. simpl. repeat split; auto.
    rewrite findTimer_other; [exact Hf|].
    intros ->. rewrite Hf in Hf0. injection Hf0 as ->. congruence.
Qed.

(** X20.  In every reachable state a notice that is shown has its dismissal
    armed: the timer the ref names is pending, clears the status, and is
    due at most a second ahead; and no dismissal other than the one the ref
    names is pending.  A notice cannot stay forever, and a dismissal left
    over from an earlier notice cannot clear it. *)
Theorem reachable_notice_armed (v : Variant) (st : Editor) :
  reachable v st -> notice_armed st.
Proof.
  intros Hr. split.
  - induction Hr as [|st ev st' Hr IH Hs].
    + intros s [=].
    + eapply armed_step; eauto.
      exact (inv_timers _ _ (reachable_invariant _ _ Hr)).
  - exact (one_dismissal _ (inv_timers _ _ (reachable_invariant _ _ Hr))).
Qed.

Lemma reachable_notice_armed_witness :
  exists st,
    run SweetychatWindow
      [changeFile (Some "text/plain"%string); elapse 300; clickWindowControl;
       imageDecoded 10 10; elapse 200]
      (initial SweetychatWindow) = Some st /\
    status st
      = Some {| message := "Image loaded successfully"; type := success |} /\
    statusTimeoutRef st = Some 3%positive /\
    notice_armed st.
Proof.
  eexists. split; [reflexivity|]. split; [reflexivity|].
  split; [reflexivity|].
  refine (reachable_notice_armed SweetychatWindow _ _).
  apply (reachable_run SweetychatWindow
           [changeFile (Some "text/plain"%string); elapse 300;
            clickWindowControl; imageDecoded 10 10; elapse 200]
           (initial SweetychatWindow));
    [apply reachable_initial | reflexivity].
Defined.

(** ** The modal of the window buttons *)

(** X21.  The timer of a window button is never cancelled.  When a window
    button is pressed, and pressed again [d] ms later, less than two
    seconds, the timer of the first press falls due two seconds after the
    first press and hides the modal the second press opened, only
    [2000 - d] ms after it; the timer of the second press is still
    pending then. *)
Theorem handleWindowControl_early_close (st : Editor) (d : N) :
  reachable SweetychatWindow st ->
  (d < 2000)%N ->
  exists st2 st',
    run SweetychatWindow
      [clickWindowControl; elapse d; clickWindowControl] st = Some st2 /\
    showModal st2 = true /\
    run SweetychatWindow [elapse (2000 - d); timeout (nextTimer st)] st2
      = Some st' /\
    showModal st' = false /\
    clock st' = (clock st2 + Z.of_N (2000 - d))%Z /\
    findTimer (Pos.succ (nextTimer st)) (timers st')
      = Some {| timer_id := Pos.succ (nextTimer st);
                due := (clock st2 + 2000)%Z; action := HideModal |}.
Proof.
  intros Hr Hd.
  pose proof (ids_fresh _ (inv_timers _ _ (reachable_invariant _ _ Hr)))
    as Hfresh.
  set (n := nextTimer st) in *.
  set (t1 := {| timer_id := n; due := (clock st + 2000)%Z;
                action := HideModal |}).
  set (t2 := {| timer_id := Pos.succ n;
                due := (clock st + Z.of_N d + 2000)%Z; action := HideModal |}).
  assert (Hnone : findTimer n (timers st) = None)
    by (apply findTimer_fresh; exact Hfresh).
  assert (Hnone2 : findTimer (Pos.succ n) (timers st) = None).
  { apply findTimer_fresh. eapply Forall_impl; [|exact Hfresh].
    simpl. intros; lia. }
  eexists. eexists. split; [reflexivity|]. split; [reflexivity|].
  cbn [run step]. unfold fireTimer.
  cbn [timers clock set_clock setTimeout setShowModal set_timers snd
       nextTimer].
  fold n. fold t1. fold t2.
  assert (Hfind : findTimer n ((timers st ++ [t1]) ++ [t2]) = Some t1).
  { rewrite !findTimer_app, Hnone. simpl. now rewrite Pos.eqb_refl. }
  rewrite Hfind. cbn [due t1 action].
  replace (clock st + 2000 <=? clock st + Z.of_N d + Z.of_N (2000 - d))%Z
    with true by (symmetry; apply Z.leb_le; lia).
  split; [reflexivity|]. split; [reflexivity|].
  split; [reflexivity|].
  cbn [runAction timers setShowModal clearTimeout set_timers].
  rewrite findTimer_other by lia.
  cbn [timers set_clock set_timers].
  rewrite !findTimer_app, Hnone2. simpl.
  replace (Pos.eqb n (Pos.succ n)) with false
    by (symmetry; apply Pos.eqb_neq; lia).
  now rewrite Pos.eqb_refl.
Qed.

Lemma handleWindowControl_early_close_witness :
  exists st',
    run SweetychatWindow
      [clickWindowControl; elapse 1500; clickWindowControl; elapse 500;
       timeout 1%positive]
      (initial SweetychatWindow) = Some st' /\
    showModal st' = false /\ clock st' = 2000%Z.
Proof.
  destruct (handleWindowControl_early_close (initial SweetychatWindow) 1500
              (reachable_initial SweetychatWindow) eq_refl)
    as (st2 & st' & H2 & _ & Hrun & Hm & _).
  exists st'. split.
  - change [clickWindowControl; elapse 1500; clickWindowControl; elapse 500;
            timeout 1%positive]
      with ([clickWindowControl; elapse 1500; clickWindowControl]
            ++ [elapse (2000 - 1500); timeout (nextTimer (initial SweetychatWindow))]).
    rewrite run_app, H2. exact Hrun.
  - split; [exact Hm|].
    vm_compute in H2. injection H2 as <-.
    vm_compute in Hrun. injection Hrun as <-. reflexivity.
Defined.

(** ** The hat of the memoised export *)

Lemma Asset_eqb_eq (a b : Asset) : Asset_eqb a b = true -> a = b.
Proof. destruct a, b; simpl; intros H; first [reflexivity | discriminate H]. Qed.

Lemma rendered_reachable (v : Variant) (r : Rendered) :
  rendered v r -> reachable v (current r).
Proof.
  induction 1 as [|r ev r' _ IH Hrender]; [apply reachable_initial|].
  unfold render in Hrender.
  match type of Hrender with
  | match step v ?e _ with _ => _ end = _ =>
      destruct (step v e (current r)) as [st'|] eqn:Hs; [|discriminate];
      injection Hrender as <-; simpl; eapply reachable_step; eauto
  end.
Qed.

Lemma rendered_renders (v : Variant) (evs : list Event) :
  forall r r', rendered v r -> renders v evs r = Some r' -> rendered v r'.
Proof.
  induction evs as [|ev evs IH]; simpl; intros r r' Hr Hrun.
  - injection Hrun as <-. exact Hr.
  - destruct (render v ev r) as [r1|] eqn:Hs; [|discriminate].
    eapply IH; [|exact Hrun]. eapply rendered_render; eauto.
Qed.

(** The hats an export draws: none, or the one its function closes over. *)
Lemma handleSave_hatsDrawn (v : Variant) (dom : Dom) (captured : Asset)
    (st : Editor) (h : Asset) :
  In h (hatsDrawn (snd (handleSave v dom captured st))) ->
  h = closedOverHat v captured st.
Proof.
  destruct (handleSave_cases v dom captured st)
    as [[_ Hr]|[[_ Hr]|[[_ Hr]|[[_ Hr]|[[_ Hr]|Hr]]]]].
  1-5: rewrite Hr; cbn; tauto.
  destruct Hr as (overlayRect & containerRect & natural & tx & ty & dx & dy
                  & dw & dh & _ & _ & _ & Hr).
  rewrite Hr. unfold placementCalls.
  destruct (flipX (transform st)); cbn; intros [<-|[]]; reflexivity.
Qed.

Lemma handleFlip_changes_hat (v : Variant) (st : Editor) :
  reachable v st -> currentHatImage (handleFlip v st) <> currentHatImage st.
Proof.
  intros Hr. pose proof (inv_hat _ _ (reachable_invariant _ _ Hr)) as Hhat.
  clear Hr. destruct st as [? col cur tp fl ? ? ? ? ? ? ? ? ? ?].
  destruct v; simpl in *.
  - destruct cur; discriminate.
  - subst cur. destruct fl, tp; discriminate.
  - subst cur. destruct fl; discriminate.
  - subst cur. destruct fl; discriminate.
  - subst cur. destruct col, fl, tp; discriminate.
Qed.

(** X22.  In the copies whose [handleSave] is memoised without
    [currentHatImage], a flip does not renew the function: when the export
    was in line with the screen before the flip, an export right after the
    flip draws the hat shown before the flip, not the one on screen. *)
Theorem handleSave_stale_hat (v : Variant) (r : Rendered) :
  v <> SweetychatWindow ->
  rendered v r ->
  handleSave_hat r = currentHatImage (current r) ->
  exists r',
    render v clickFlip r = Some r' /\
    handleSave_hat r' = currentHatImage (current r) /\
    currentHatImage (current r') <> currentHatImage (current r) /\
    (forall dom h,
        In h (hatsDrawn (exportOf v dom r')) ->
        h = currentHatImage (current r) /\ h <> currentHatImage (current r')).
Proof.
  intros Hv Hr Hsync.
  pose proof (handleFlip_changes_hat v _ (rendered_reachable v r Hr)) as Hne.
  assert (Hbase : baseImage (handleFlip v (current r)) = baseImage (current r))
    by (destruct v; simpl; try destruct (isFlipped (current r)); reflexivity).
  eexists. split.
  - unfold render. cbn [step]. reflexivity.
  - cbn [current handleSave_hat]. unfold handleSave_depsChanged.
    rewrite Hbase, String.eqb_refl. cbn [negb callsSetTransform
      callsSetOriginalImageSize orb].
    replace (match v with SweetychatWindow =>
               negb (Asset_eqb (currentHatImage (handleFlip v (current r)))
                       (currentHatImage (current r)))
             | _ => false end) with false
      by (destruct v; try reflexivity; contradiction).
    split; [exact Hsync|]. split; [exact Hne|].
    intros dom h Hin. unfold exportOf in Hin. cbn [current handleSave_hat] in Hin.
    apply handleSave_hatsDrawn in Hin.
    assert (Hh : h = handleSave_hat r)
      by (rewrite Hin; destruct v; try reflexivity; contradiction).
    rewrite Hh, Hsync. split; [reflexivity|]. auto.
Qed.

Lemma handleSave_stale_hat_witness :
  exists r r',
    renders ElizaTape
      [fileRead "data:image/png;base64,AAAA"; imageDecoded 1000 2000]
      (mount ElizaTape) = Some r /\
    render ElizaTape clickFlip r = Some r' /\
    currentHatImage (current r') = leftImage /\
    hatsDrawn
      (exportOf ElizaTape
         {| overlayRef_current :=
              Some (Some {| rect_width := 100; rect_height := 80 |});
            containerRef_current :=
              Some {| rect_width := 800; rect_height := 600 |};
            getContext_2d := true; baseImg_onload := true;
            hatImg_onload := Some {| width := 512; height := 400 |} |} r')
    = [rightImage] /\
    handleSave_hat r' = rightImage.
Proof.
  assert (Hr : exists r,
             renders ElizaTape
               [fileRead "data:image/png;base64,AAAA"; imageDecoded 1000 2000]
               (mount ElizaTape) = Some r /\
             handleSave_hat r = currentHatImage (current r))
    by (eexists; split; reflexivity).
  destruct Hr as (r & Hrun & Hsync).
  destruct (handleSave_stale_hat ElizaTape r ltac:(discriminate)
              (rendered_renders ElizaTape _ _ _ (rendered_mount ElizaTape) Hrun)
              Hsync)
    as (r' & Hrender & Hhat & _ & _).
  exists r, r'. split; [exact Hrun|]. split; [exact Hrender|].
  vm_compute in Hrun. injection Hrun as <-.
  vm_compute in Hrender. injection Hrender as <-.
  split; [reflexivity|]. split; [vm_compute; reflexivity | reflexivity].
Defined.

(** X23.  In the copy whose [handleSave] is memoised with
    [currentHatImage] too, the function in use always closes over the hat
    on screen, and an export draws no other hat. *)
Theorem handleSave_current_hat (r : Rendered) :
  rendered SweetychatWindow r ->
  handleSave_hat r = currentHatImage (current r) /\
  (forall dom h,
      In h (hatsDrawn (exportOf SweetychatWindow dom r)) ->
      h = currentHatImage (current r)).
Proof.
  intros Hr. split.
  - induction Hr as [|r ev r' _ IH Hrender]; [reflexivity|].
    unfold render in Hrender.
    match type of Hrender with
    | match step _ ?e _ with _ => _ end = _ =>
        destruct (step SweetychatWindow e (current r)) as [st'|] eqn:Hs;
          [|discriminate]
    end.
    injection Hrender as <-. cbn [current handleSave_hat].
    destruct (handleSave_depsChanged SweetychatWindow ev (current r) st')
      eqn:Hdeps; [reflexivity|].
    unfold handleSave_depsChanged in Hdeps.
    apply orb_false_elim in Hdeps. destruct Hdeps as [_ Hhat].
    apply negb_false_iff, Asset_eqb_eq in Hhat. congruence.
  - intros dom h Hin. unfold exportOf in Hin.
    now apply handleSave_hatsDrawn in Hin.
Qed.

Lemma handleSave_current_hat_witness :
  exists r,
    renders SweetychatWindow
      [fileRead "data:image/png;base64,AAAA"; clickFlip; clickWindowControl]
      (mount SweetychatWindow) = Some r /\
    currentHatImage (current r) = leftImage /\
    handleSave_hat r = leftImage.
Proof.
  eexists. split; [reflexivity|]. split; [reflexivity|].
  refine (proj1 (handleSave_current_hat _ _)).
  apply (rendered_renders SweetychatWindow
           [fileRead "data:image/png;base64,AAAA"; clickFlip;
            clickWindowControl] (mount SweetychatWindow));
    [apply rendered_mount | reflexivity].
Defined.

(** ** Order of the controls *)

(** X24.  The controls that place the overlay do not depend on the order in
    which they are used: rotate and scale commute, each commutes with a
    drag move, and the flip commutes with all three. *)
Theorem controls_commute (v : Variant) (r : RotateDirection)
    (s : ScaleDirection) (e : Pointer) (st : Editor) :
  handleRotate r (handleScale s st) = handleScale s (handleRotate r st) /\
  handleRotate r (handleMouseMove e st) = handleMouseMove e (handleRotate r st) /\
  handleScale s (handleMouseMove e st) = handleMouseMove e (handleScale s st) /\
  handleFlip v (handleRotate r st) = handleRotate r (handleFlip v st) /\
  handleFlip v (handleScale s st) = handleScale s (handleFlip v st) /\
  handleFlip v (handleMouseMove e st) = handleMouseMove e (handleFlip v st).
Proof.
  destruct st as [? col cur tp fl t ? ? ? drag ? ? ? ? ?].
  unfold handleMouseMove. cbn [isDragging].
  repeat split; try reflexivity.
  all: destruct v, drag; cbn; try destruct fl; reflexivity.
Qed.

(** ** Pending timers *)

Lemma one_timer_showStatus (msg : string) (ty : StatusType) (st : Editor) :
  timers_ok st ->
  Forall (fun t => action t = ClearStatus) (timers st) ->
  (List.length (timers (showStatus msg ty st)) <= 1)%nat /\
  Forall (fun t => action t = ClearStatus) (timers (showStatus msg ty st)).
Proof.
  intros Hok Hall. rewrite showStatus_timers.
  assert (Hnil : uncancelled st = []).
  { destruct (uncancelled st) as [|t l] eqn:E; [reflexivity|]. exfalso.
    assert (Hin : In t (uncancelled st)) by (rewrite E; now left).
    apply (uncancelled_no_dismissal st t Hok Hin).
    rewrite Forall_forall in Hall. apply Hall. now apply uncancelled_incl. }
  rewrite Hnil. simpl. split; [lia|]. repeat constructor.
Qed.

Lemma one_timer_step (v : Variant) (ev : Event) (st st' : Editor) :
  v <> SweetychatWindow ->
  timers_ok st ->
  (List.length (timers st) <= 1)%nat /\
  Forall (fun t => action t = ClearStatus) (timers st) ->
  step v ev st = Some st' ->
  (List.length (timers st') <= 1)%nat /\
  Forall (fun t => action t = ClearStatus) (timers st').
Proof.
  intros Hv Hok Hone.
  assert (Hshow : forall msg ty,
             (List.length (timers (showStatus msg ty st)) <= 1)%nat /\
             Forall (fun t => action t = ClearStatus)
               (timers (showStatus msg ty st)))
    by (intros msg ty; apply one_timer_showStatus; tauto).
  destruct ev; simpl; intros Hs; try (injection Hs as <-); auto.
  - unfold handleTouchStart. destruct touches as [|? [|]]; exact Hone.
  - unfold handleTouchMove.
    destruct (isDragging st), touches as [|? [|]]; exact Hone.
  - unfold handleMouseMove. destruct (isDragging st); exact Hone.
  - destruct v; simpl; try destruct (isFlipped st); exact Hone.
  - destruct v; simpl in Hs; try discriminate; injection Hs as <-;
      try destruct (isFlipped st); exact Hone.
  - destruct v; simpl in Hs; try discriminate; injection Hs as <-; exact Hone.
  - destruct v; exact Hone.
  - destruct (handleSave_state v dom captured st) as [->|(msg & ty & ->)];
      auto.
  - destruct v; simpl in Hs; try discriminate. contradiction.
  - destruct v; try discriminate. contradiction.
  - unfold handleBaseImageUpload. destruct fileType as [ty|]; auto.
    destruct (negb (String.prefix "image/" ty)); auto.
  - unfold img_onload. apply one_timer_showStatus; [|apply Hone].
    eapply timers_ok_same; [| | |exact Hok]; reflexivity.
  - apply fireTimer_inv in Hs. destruct Hs as (t & _ & _ & ->).
    destruct Hone as [Hlen Hall].
    assert (Hsub : incl (filter (fun u => negb (Pos.eqb (timer_id u) id))
                           (timers st)) (timers st))
      by (intros u Hu; now apply filter_In in Hu).
    destruct (action t); simpl; split.
    all: try (eapply Nat.le_trans; [apply filter_length_le | exact Hlen]).
    all: apply Forall_forall; intros u Hu; apply Hsub in Hu;
      rewrite Forall_forall in Hall; auto.
Qed.

(** X25.  In the copies without window buttons at most one timer is pending
    at any time, and it is a dismissal of the notice: issuing notices never
    piles timers up. *)
Theorem reachable_one_timer (v : Variant) (st : Editor) :
  v <> SweetychatWindow ->
  reachable v st ->
  (List.length (timers st) <= 1)%nat /\
  Forall (fun t => action t = ClearStatus) (timers st).
Proof.
  intros Hv Hr. induction Hr as [|st ev st' Hr IH Hs].
  - simpl. split; [lia | constructor].
  - eapply one_timer_step; eauto.
    exact (inv_timers _ _ (reachable_invariant _ _ Hr)).
Qed.

Lemma reachable_one_timer_witness :
  exists st,
    run ElizaColor
      [changeFile (Some "text/plain"%string); elapse 100;
       changeFile (Some "text/html"%string); imageDecoded 5 5;
       clickSave {| overlayRef_current := None; containerRef_current := None;
                    getContext_2d := true; baseImg_onload := true;
                    hatImg_onload := None |} orangeRightImage]
      (initial ElizaColor) = Some st /\
    nextTimer st = 5%positive /\
    (List.length (timers st) <= 1)%nat.
Proof.
  eexists. split; [reflexivity|]. split; [reflexivity|].
  refine (proj1 (reachable_one_timer ElizaColor _ ltac:(discriminate) _)).
  apply (reachable_run ElizaColor
           [changeFile (Some "text/plain"%string); elapse 100;
            changeFile (Some "text/html"%string); imageDecoded 5 5;
            clickSave {| overlayRef_current := None;
                         containerRef_current := None;
                         getContext_2d := true; baseImg_onload := true;
                         hatImg_onload := None |} orangeRightImage]
           (initial ElizaColor)); [apply reachable_initial | reflexivity].
Defined.
